(** * Product matching for channel messages: a model of [src/matcher.py]

    The development follows the layout of the Python module:
    - [Py]       the builtins the matcher relies on ([str] methods, [float]);
    - [Re]       the interface of the regular-expression engine ([re.search])
                 and the search of the patterns [re.escape] makes;
    - [Eff]      exceptions, logging and engine calls as an explicit effect;
    - [Matcher]  [ProductMatcher] itself, method by method;
    - [Spec]     the notions the specification is worded in;
    - [Samples]  a few catalogues and messages, with the engine's answers;
    - the properties of the matching engine, component by component.

    Strings are sequences of Unicode code points, as Python's [str].  The
    builtins whose definition depends on the Unicode character database
    ([str.lower], [str.upper], [str.isdigit], the class [\w], the digits
    accepted by [float]) are modelled on the characters the matcher itself
    names: ASCII, the no-break space, the Cyrillic letters U+0400..U+045F
    and the euro sign ([Py.modelled]).  Statements that depend on those
    builtins carry that restriction as a hypothesis.

    [re.search] is a parameter.  As [Eff.search_fn] it may raise any
    exception; as [Re.engine] it raises nothing but [re.error], the
    exception the handlers of the matcher are written for.  A statement
    about an [engine] says what the matcher does as long as its searches
    raise nothing else; what becomes of another exception is stated over
    a [search_fn]. *)

From Stdlib Require Import List NArith ZArith QArith Bool Ascii String Lia Lqa.
Import ListNotations.

Set Implicit Arguments.

(* ================================================================== *)
(** * Python builtins *)
(* ================================================================== *)

Module Py.

Local Open Scope N_scope.

(** A character is its code point; a [str] is a list of characters. *)
Definition char := N.
Definition str := list char.

(** An ASCII literal as a [str]. *)
Definition lit (s : string) : str := map N_of_ascii (list_ascii_of_string s).

Definition between (lo hi c : char) : bool := (lo <=? c) && (c <=? hi).

(** The characters on which the case, digit and word-class tables below
    agree with CPython's. *)
Definition modelled (c : char) : bool :=
  (c <=? 127) || (c =? 0xA0) || between 0x400 0x45F c || (c =? 0x20AC).

(** The same characters, listed. *)
Definition modelled_chars : list char :=
  map N.of_nat (seq 0 128) ++ [0xA0] ++ map N.of_nat (seq 0x400 96) ++ [0x20AC].

(** ** Comparison and search *)

Fixpoint str_eqb (a b : str) : bool :=
  match a, b with
  | [], [] => true
  | x :: a', y :: b' => (x =? y) && str_eqb a' b'
  | _, _ => false
  end.

(** [s.startswith(p)] *)
Fixpoint startswith (p s : str) : bool :=
  match p, s with
  | [], _ => true
  | x :: p', y :: s' => (x =? y) && startswith p' s'
  | _ :: _, [] => false
  end.

(** [sub in s] *)
Fixpoint contains (sub s : str) : bool :=
  startswith sub s ||
  match s with
  | [] => false
  | _ :: s' => contains sub s'
  end.

(** [s.rfind(c)] for a one-character needle: the highest index holding
    [c], or -1. *)
Fixpoint rfind_from (c : char) (s : str) (i acc : Z) : Z :=
  match s with
  | [] => acc
  | x :: s' => rfind_from c s' (i + 1)%Z (if x =? c then i else acc)
  end.

Definition rfind (c : char) (s : str) : Z := rfind_from c s 0%Z (-1)%Z.

Definition len (s : str) : Z := Z.of_nat (List.length s).

(** Slice bounds as Python clamps them. *)
Definition clamp (i : Z) (s : str) : nat :=
  Z.to_nat (if (i <? 0)%Z then Z.max 0 (len s + i) else Z.min i (len s)).

(** [s[i:]] and [s[:i]] *)
Definition slice_from (i : Z) (s : str) : str := skipn (clamp i s) s.
Definition slice_to (i : Z) (s : str) : str := firstn (clamp i s) s.

(** [s.replace(old, new)] for a non-empty [old]: occurrences are replaced
    left to right without overlap.  [skip] counts the characters of the
    occurrence just replaced that are still to be dropped. *)
Fixpoint replace_from (old new : str) (skip : nat) (s : str) : str :=
  match s with
  | [] => []
  | c :: s' =>
      match skip with
      | S k => replace_from old new k s'
      | O =>
          if startswith old s
          then new ++ replace_from old new (pred (List.length old)) s'
          else c :: replace_from old new 0 s'
      end
  end.

Definition replace (old new s : str) : str := replace_from old new 0 s.

(** [s.replace(c, '')] for a one-character [c]. *)
Definition remove_char (c : char) (s : str) : str :=
  filter (fun x => negb (x =? c)) s.

(** ** Character classes *)

(** [c.isspace()]: exact for every code point. *)
Definition isspace (c : char) : bool :=
  between 0x09 0x0D c || between 0x1C 0x20 c || (c =? 0x85) || (c =? 0xA0) ||
  (c =? 0x1680) || between 0x2000 0x200A c || (c =? 0x2028) || (c =? 0x2029) ||
  (c =? 0x202F) || (c =? 0x205F) || (c =? 0x3000).

Fixpoint lstrip (s : str) : str :=
  match s with
  | c :: s' => if isspace c then lstrip s' else s
  | [] => []
  end.

Definition rstrip (s : str) : str := rev (lstrip (rev s)).

(** [s.strip()] *)
Definition strip (s : str) : str := rstrip (lstrip s).

(** [c.isdigit()] on the modelled characters: the ASCII digits. *)
Definition isdigit_char (c : char) : bool := between 48 57 c.

(** [s.isdigit()]: every character is a digit and there is at least one. *)
Definition isdigit (s : str) : bool :=
  match s with
  | [] => false
  | _ => forallb isdigit_char s
  end.

(** The class [\w] on the modelled characters: letters, digits and the
    underscore. *)
Definition is_word (c : char) : bool :=
  between 48 57 c || between 65 90 c || between 97 122 c || (c =? 95) ||
  between 0x400 0x45F c.

(** ** Case mapping *)

(** [c.lower()] and [c.upper()] on the modelled characters: the ASCII
    letters, U+0410..U+042F against U+0430..U+044F and U+0400..U+040F
    against U+0450..U+045F. *)
Definition lower_char (c : char) : char :=
  if between 65 90 c then c + 32
  else if between 0x410 0x42F c then c + 0x20
  else if between 0x400 0x40F c then c + 0x50
  else c.

Definition upper_char (c : char) : char :=
  if between 97 122 c then c - 32
  else if between 0x430 0x44F c then c - 0x20
  else if between 0x450 0x45F c then c - 0x50
  else c.

Definition lower (s : str) : str := map lower_char s.
Definition upper (s : str) : str := map upper_char s.

(** ** Floating-point values *)

(** A [float] is a finite value, an infinity or a NaN.  A finite value is
    the exact rational a decimal string denotes; CPython rounds it to the
    nearest binary64, a monotone map that this model leaves out. *)
Inductive float :=
| Finite (q : Q)
| Inf (negative : bool)
| NaN.

(** [a <= b] *)
Definition float_le (a b : float) : bool :=
  match a, b with
  | NaN, _ | _, NaN => false
  | Finite x, Finite y => Qle_bool x y
  | Inf true, _ => true
  | _, Inf false => true
  | Inf false, Finite _ => false
  | Inf false, Inf true => false
  | Finite _, Inf true => false
  end.

(** [a >= b] *)
Definition float_ge (a b : float) : bool := float_le b a.

Definition float_neg (a : float) : float :=
  match a with
  | Finite q => Finite (Qopp q)
  | Inf n => Inf (negb n)
  | NaN => NaN
  end.

(** ** [float(s)] *)

(** A digit part: digits, with single underscores between digits only. *)
Fixpoint digits_us (s : str) (after_digit : bool) : option (list N) :=
  match s with
  | [] => if after_digit then Some [] else None
  | c :: s' =>
      if isdigit_char c then option_map (cons (c - 48)) (digits_us s' true)
      else if (c =? 95) && after_digit then
        match s' with
        | d :: _ => if isdigit_char d then digits_us s' false else None
        | [] => None
        end
      else None
  end.

Definition digitpart (s : str) : option (list N) := digits_us s false.

Definition digits_value (ds : list N) : Z :=
  fold_left (fun a d => (10 * a + Z.of_N d)%Z) ds 0%Z.

(** Split at the first character satisfying [p]. *)
Fixpoint split_first (p : char -> bool) (s : str) : str * option str :=
  match s with
  | [] => ([], None)
  | c :: s' =>
      if p c then ([], Some s')
      else let '(a, b) := split_first p s' in (c :: a, b)
  end.

Definition take_sign (s : str) : bool * str :=
  match s with
  | 43 :: s' => (false, s')
  | 45 :: s' => (true, s')
  | _ => (false, s)
  end.

(** [m * 10^e] *)
Definition scale10 (m e : Z) : Q :=
  if (0 <=? e)%Z then inject_Z (m * 10 ^ e)
  else Qmake m (Z.to_pos (10 ^ (- e))).

(** The exponent after [e] or [E]: an optional sign and a digit part. *)
Definition exponent (s : str) : option Z :=
  let '(neg, ds) := take_sign s in
  match digitpart ds with
  | Some d => Some (if neg then (- digits_value d)%Z else digits_value d)
  | None => None
  end.

(** [digitpart ["." [digitpart]]] or ["." digitpart]: the digits and how
    many of them are fractional. *)
Definition mantissa (s : str) : option (Z * Z) :=
  match split_first (N.eqb 46) s with
  | (ip, None) =>
      match digitpart ip with
      | Some d => Some (digits_value d, 0%Z)
      | None => None
      end
  | (ip, Some fp) =>
      match ip, fp with
      | [], [] => None
      | _, _ =>
          match (match ip with [] => Some [] | _ => digitpart ip end),
                (match fp with [] => Some [] | _ => digitpart fp end) with
          | Some di, Some df =>
              Some (digits_value (di ++ df), Z.of_nat (List.length df))
          | _, _ => None
          end
      end
  end.

Definition floatnumber (s : str) : option Q :=
  let '(m, e) := split_first (fun c => (c =? 101) || (c =? 69)) s in
  match mantissa m, e with
  | Some (v, k), None => Some (scale10 v (- k))
  | Some (v, k), Some es =>
      match exponent es with
      | Some x => Some (scale10 v (x - k))
      | None => None
      end
  | None, _ => None
  end.

(** Decimal values at or above [2^1024 - 2^970] round to infinity. *)
Definition overflow_threshold : Q := inject_Z (2 ^ 1024 - 2 ^ 970).

Definition of_decimal (q : Q) : float :=
  if Qle_bool overflow_threshold q then Inf false else Finite q.

(** [float(s)] on modelled characters; [None] stands for [ValueError].
    Surrounding whitespace is dropped, then an optional sign is followed by
    [inf], [infinity] or [nan] in any case, or by a decimal number. *)
Definition float_of_str (s : str) : option float :=
  let '(neg, body) := take_sign (strip s) in
  let sgn := fun v => if neg then float_neg v else v in
  let word := lower body in
  if str_eqb word (lit "inf") || str_eqb word (lit "infinity") then Some (sgn (Inf false))
  else if str_eqb word (lit "nan") then Some NaN
  else option_map (fun q => sgn (of_decimal q)) (floatnumber body).

End Py.

(* ================================================================== *)
(** * The regular-expression engine *)
(* ================================================================== *)

Module Re.

Import Py.
Local Open Scope N_scope.

(** A match object: the whole matched span, [group(0)], and the capturing
    groups [group(1)], [group(2)], ...; a group that took no part in the
    match is [None]. *)
Record match_obj := { group0 : str; groups : list (option str) }.

(** What [re.search(pattern, text, flags)] does when it raises nothing
    but [re.error]: raise [re.error], return [None], or return a match
    object.  ([Eff.reply] has the other exceptions.) *)
Inductive outcome :=
| Error
| NoMatch
| Match (m : match_obj).

(** The engine itself is the [re] module of the standard library; the
    matcher is verified against any engine.  The first argument tells
    whether [re.IGNORECASE] is passed.  An [engine] raises nothing but
    [re.error], the exception the handlers of the matcher are written
    for; [Eff.search_fn] is a search that may raise anything. *)
Definition engine := bool -> str -> str -> outcome.

(** [re.escape]: a backslash before each special character. *)
Definition special (c : char) : bool :=
  existsb (N.eqb c) (lit "()[]{}?*+-|^$\.&~# " ++ [9; 10; 13; 11; 12]).

Definition escape (s : str) : str :=
  flat_map (fun c => if special c then [92; c] else [c]) s.

(** The assertion [\b] *)
Definition wb : str := lit "\b".

(** [\b] holds between two positions when exactly one of the neighbouring
    characters is a word character; the ends of the text count as
    non-word. *)
Definition word_opt (c : option char) : bool :=
  match c with
  | Some x => is_word x
  | None => false
  end.

Definition boundary (before after : option char) : bool :=
  xorb (word_opt before) (word_opt after).

(** Does the literal [kw] occur at the head of [s], which is preceded by
    [prev], with a word boundary on each side? *)
Definition word_at (kw : str) (prev : option char) (s : str) : bool :=
  boundary prev (hd_error s) && startswith kw s &&
  boundary (last (map Some kw) prev) (hd_error (skipn (List.length kw) s)).

Fixpoint word_search_from (kw : str) (prev : option char) (s : str) : bool :=
  word_at kw prev s ||
  match s with
  | [] => false
  | c :: s' => word_search_from kw (Some c) s'
  end.

(** The meaning of [re.search(r'\b' + re.escape(kw) + r'\b', text)]: the
    escaped keyword matches itself only, so the search succeeds when [kw]
    occurs somewhere between two word boundaries. *)
Definition word_search (kw text : str) : bool := word_search_from kw None text.

(** ** Patterns made by [re.escape]

    [r'\b' + re.escape(kw) + r'\b'] is made of the assertion [\b] and of
    literal characters, each special one behind a backslash.  A pattern
    of that kind is read into its tokens and searched as the engine does
    it: the tokens are tried at each position of the text in turn. *)
Inductive token :=
| Boundary
| Literal (c : char).

Definition backslash : char := 92.
Definition letter_b : char := 98.

(** The tokens of a pattern, or [None] for a pattern with anything else
    in it: a special character that is not escaped, or an escape other
    than [\b] and an escaped special character. *)
Fixpoint tokens (p : str) : option (list token) :=
  match p with
  | [] => Some []
  | c :: p' =>
      if c =? backslash then
        match p' with
        | [] => None
        | d :: p'' =>
            if d =? letter_b then option_map (cons Boundary) (tokens p'')
            else if special d then option_map (cons (Literal d)) (tokens p'')
            else None
        end
      else if special c then None
      else option_map (cons (Literal c)) (tokens p')
  end.

(** Do the tokens match at the head of [s], which is preceded by [prev]? *)
Fixpoint match_here (ts : list token) (prev : option char) (s : str) : bool :=
  match ts with
  | [] => true
  | Boundary :: ts' => boundary prev (hd_error s) && match_here ts' prev s
  | Literal c :: ts' =>
      match s with
      | x :: s' => (x =? c) && match_here ts' (Some x) s'
      | [] => false
      end
  end.

Fixpoint search_tokens (ts : list token) (prev : option char) (s : str) : bool :=
  match_here ts prev s ||
  match s with
  | [] => false
  | c :: s' => search_tokens ts (Some c) s'
  end.

(** [bool(re.search(p, text))] for a pattern of that kind. *)
Definition literal_search (p text : str) : option bool :=
  option_map (fun ts => search_tokens ts None text) (tokens p).

End Re.

(* ================================================================== *)
(** * Effects: exceptions, the log and the calls of the engine *)
(* ================================================================== *)

Module Eff.

Import Py Re.

(** The exceptions met in the matcher.  [re.search] raises [re.error] on
    a pattern it cannot compile, and [OverflowError] or [RecursionError]
    on some: a repetition count of 2^32 or more, a pattern nested too
    deep. *)
Inductive exn :=
| re_error | IndexError | ValueError | AttributeError
| OverflowError | RecursionError.

Definition exn_eqb (a b : exn) : bool :=
  match a, b with
  | re_error, re_error | IndexError, IndexError
  | ValueError, ValueError | AttributeError, AttributeError
  | OverflowError, OverflowError | RecursionError, RecursionError => true
  | _, _ => false
  end.

(** What a call of [re.search] does: raise an exception, or return [None]
    or a match object. *)
Inductive reply :=
| Raised (e : exn)
| Returned (m : option match_obj).

(** [re.search] as the matcher calls it; the first argument tells whether
    [re.IGNORECASE] is passed. *)
Definition search_fn := bool -> str -> str -> reply.

(** An engine that raises nothing but [re.error] is such a function. *)
Definition reply_of (o : outcome) : reply :=
  match o with
  | Error => Raised re_error
  | NoMatch => Returned None
  | Match m => Returned (Some m)
  end.

Definition lift (e : engine) : search_fn :=
  fun ignorecase pat text => reply_of (e ignorecase pat text).

Coercion lift : engine >-> search_fn.

Inductive level := DEBUG | WARNING.

(** The messages handed to [logger], with the values they interpolate. *)
Inductive message :=
| Loaded_price_patterns (n : nat)
| Invalid_regex_pattern (keyword : str)
| Message_excluded (exclude_keyword : str)
| Price_outside_range (price_match min_price max_price : float)
| No_price_patterns_configured
| Price_extracted (price : float) (currency : str) (description : option str)
| Price_below_min_value (price min_value : float)
| Pattern_failed (pattern : str) (e : exn)
| No_price_found
| Failed_to_parse (price_str : option str) (e : exn).

(** What a run leaves behind: the calls of [re.search] and the log. *)
Inductive event :=
| Call_search (ignorecase : bool) (pattern text : str)
| Log (l : level) (m : message).

Inductive res (A : Type) :=
| Ret (a : A)
| Raise (e : exn).

Arguments Raise {A} e.

(** A computation yields its trace and either a value or an exception. *)
Definition M (A : Type) : Type := list event * res A.

Definition ret {A} (a : A) : M A := ([], Ret a).
Definition raise {A} (e : exn) : M A := ([], Raise e).
Definition log (l : level) (m : message) : M unit := ([Log l m], Ret tt).

Definition bind {A B} (m : M A) (k : A -> M B) : M B :=
  match m with
  | (t, Ret a) => let '(t', r) := k a in (t ++ t', r)
  | (t, Raise e) => (t, Raise e)
  end.

(** [try: m except handled: h] *)
Definition try_except {A} (m : M A) (handled : list exn) (h : exn -> M A) : M A :=
  match m with
  | (t, Raise e) =>
      if existsb (exn_eqb e) handled
      then let '(t', r) := h e in (t ++ t', r)
      else (t, Raise e)
  | _ => m
  end.

Definition trace {A} (m : M A) : list event := fst m.
Definition result {A} (m : M A) : res A := snd m.

(** A computation that returns: no exception escapes it. *)
Definition returns {A} (m : M A) : Prop := exists a, result m = Ret a.

(** The patterns given to [re.search], in call order. *)
Definition searched (t : list event) : list str :=
  flat_map (fun e => match e with Call_search _ p _ => [p] | Log _ _ => [] end) t.

Module Notations.
Notation "x <- c ;; k" := (bind c (fun x => k))
  (at level 61, c at next level, right associativity).
Notation "c ;; k" := (bind c (fun _ => k))
  (at level 61, right associativity).
End Notations.

End Eff.

(* ================================================================== *)
(** * [ProductMatcher] *)
(* ================================================================== *)

Module Matcher.

Import Py Re Eff Eff.Notations.
Local Open Scope N_scope.

(** ** Configuration *)

(** [price_range] of a product: a dictionary with optional keys. *)
Record PriceRange := { min : option float; max : option float }.

Record Product := {
  name : option str;
  keywords : list str;
  exclude_keywords : list str;
  price_range : option PriceRange;
  notify : option bool
}.

Record PricePattern := {
  pattern : option str;
  min_value : option float;
  description : option str
}.

Record MatchingConfig := {
  cfg_case_sensitive : option bool;
  cfg_whole_word : option bool;
  cfg_regex_enabled : option bool
}.

Record Config := {
  cfg_products : option (list Product);
  cfg_matching : option MatchingConfig;
  cfg_price_patterns : option (list PricePattern);
  cfg_price_number_regex : option str
}.

(** The attributes of a [ProductMatcher] once constructed. *)
Record ProductMatcher := {
  products : list Product;
  case_sensitive : bool;
  whole_word : bool;
  regex_enabled : bool;
  price_patterns : list PricePattern;
  price_number_regex : str
}.

(** What [_extract_price] returns. *)
Record PriceInfo := { value : float; currency : str }.

(** What [_match_product] returns: the match details. *)
Record MatchResult := {
  product_name : str;
  matched_keywords : list str;
  price : option float;
  res_currency : option str;
  res_notify : bool
}.

Definition get {A} (o : option A) (default : A) : A :=
  match o with
  | Some a => a
  | None => default
  end.

(** Truth value of a string and of a [price_range] dictionary: non-empty. *)
Definition truthy_str (s : option str) : bool :=
  match s with
  | Some (_ :: _) => true
  | _ => false
  end.

Definition truthy_range (r : option PriceRange) : bool :=
  match r with
  | Some {| min := None; max := None |} => false
  | Some _ => true
  | None => false
  end.

(** ** The look-alike table *)

Definition CYRILLIC_TO_LATIN : list (char * char) :=
  [ (* uppercase *)
    (0x410, 65) (* A *); (0x412, 66) (* B *); (0x415, 69) (* E *);
    (0x41A, 75) (* K *); (0x41C, 77) (* M *); (0x41D, 72) (* H *);
    (0x41E, 79) (* O *); (0x420, 80) (* P *); (0x421, 67) (* C *);
    (0x422, 84) (* T *); (0x425, 88) (* X *); (0x423, 89) (* Y *);
    (0x406, 73) (* I *);
    (* lowercase *)
    (0x430, 97) (* a *); (0x435, 101) (* e *); (0x43E, 111) (* o *);
    (0x440, 112) (* p *); (0x441, 99) (* c *); (0x443, 121) (* y *);
    (0x445, 120) (* x *); (0x456, 105) (* i *) ].

(** [d.get(k, default)] on a table of pairs. *)
Fixpoint table_get (d : list (char * char)) (k default : char) : char :=
  match d with
  | [] => default
  | (k', v) :: d' => if k =? k' then v else table_get d' k default
  end.

Definition _normalize_text (text : str) : str :=
  map (fun c => table_get CYRILLIC_TO_LATIN c c) text.

(** ** Currency detection *)

Definition euro : str := [0x20AC].
Definition evro : str := [0x435; 0x432; 0x440; 0x43E].
Definition dollar_ru : str := [0x434; 0x43E; 0x43B; 0x43B; 0x430; 0x440].

Definition _detect_currency (matched_text : str) : str :=
  if contains euro matched_text || contains (lit "EUR") (upper matched_text)
     || contains evro (lower matched_text)
  then euro
  else if contains (lit "$") matched_text || contains (lit "USD") (upper matched_text)
          || contains (lit "dollar") (lower matched_text)
          || contains dollar_ru (lower matched_text)
  then lit "$"
  else [].

(** ** Parsing a price *)

Definition dot : char := 46.
Definition comma : char := 44.
Definition space : char := 32.
Definition nbsp : char := 0xA0.

(** The four [replace] calls that delete [','], ['.'], the space and the
    no-break space. *)
Definition remove_separators (s : str) : str :=
  remove_char nbsp (remove_char space (remove_char dot (remove_char comma s))).

(** The tail after a separator makes it a decimal separator when it has
    one or two characters, all digits. *)
Definition decimal_tail (after : str) : bool :=
  (1 <=? len after)%Z && (len after <=? 2)%Z && isdigit after.

(** The values of [decimal_sep] and [decimal_pos] after the two tests on
    the last dot and the last comma. *)
Definition find_decimal (cleaned : str) : option char * Z :=
  let last_dot_pos := rfind dot cleaned in
  let last_comma_pos := rfind comma cleaned in
  if (last_dot_pos >? last_comma_pos)%Z then
    if decimal_tail (slice_from (last_dot_pos + 1) cleaned)
    then (Some dot, last_dot_pos) else (None, (-1)%Z)
  else if (last_comma_pos >? last_dot_pos)%Z then
    if decimal_tail (slice_from (last_comma_pos + 1) cleaned)
    then (Some comma, last_comma_pos) else (None, (-1)%Z)
  else (None, (-1)%Z).

(** The string handed to [float]. *)
Definition join_parts (cleaned : str) : str :=
  let '(decimal_sep, decimal_pos) := find_decimal cleaned in
  match decimal_sep with
  | Some _ =>
      if (decimal_pos >? 0)%Z then
        let int_part := slice_to decimal_pos cleaned in
        let dec_part := slice_from (decimal_pos + 1) cleaned in
        remove_separators int_part ++ [dot] ++ dec_part
      else remove_separators cleaned
  | None => remove_separators cleaned
  end.

(** The argument is [None] when the capturing group took no part in the
    match; [strip] then fails with [AttributeError]. *)
Definition _parse_price_string (price_str : option str) : M (option float) :=
  try_except
    (cleaned <- match price_str with
                | Some s => ret (strip s)
                | None => raise AttributeError
                end ;;
     match float_of_str (join_parts cleaned) with
     | Some v => ret (Some v)
     | None => raise ValueError
     end)
    [ValueError; AttributeError]
    (fun e => log DEBUG (Failed_to_parse price_str e) ;; ret None).

Section WithEngine.

(** [re.search] *)
Variable re_search : search_fn.

(** [ProductMatcher.__init__] *)
Definition default_price_number_regex : str :=
  lit "(\d{1,4}(?:[,\s]\d{3})*(?:[.,]\d{1,2})?)".

Definition __init__ (config : Config) : M ProductMatcher :=
  let matching_config :=
    get (cfg_matching config)
        {| cfg_case_sensitive := None; cfg_whole_word := None;
           cfg_regex_enabled := None |} in
  let self :=
    {| products := get (cfg_products config) [];
       case_sensitive := get (cfg_case_sensitive matching_config) false;
       whole_word := get (cfg_whole_word matching_config) false;
       regex_enabled := get (cfg_regex_enabled matching_config) true;
       price_patterns := get (cfg_price_patterns config) [];
       price_number_regex :=
         if truthy_str (cfg_price_number_regex config)
         then get (cfg_price_number_regex config) []
         else default_price_number_regex |} in
  log DEBUG (Loaded_price_patterns (List.length (price_patterns self))) ;;
  ret self.

Variable self : ProductMatcher.

(** A call of [re.search], recorded in the trace. *)
Definition search (ignorecase : bool) (pat text : str) : M (option match_obj) :=
  ([Call_search ignorecase pat text],
   match re_search ignorecase pat text with
   | Raised e => Raise e
   | Returned m => Ret m
   end).

Definition is_some {A} (o : option A) : bool :=
  match o with
  | Some _ => true
  | None => false
  end.

(** [bool(re.search(r'\b' + re.escape(kw) + r'\b', text))].  The pattern
    is made by [re.escape], and the call is answered by the search of
    such patterns; a pattern of another kind is left to the engine. *)
Definition search_escaped_word (kw text : str) : M bool :=
  let pat := wb ++ escape kw ++ wb in
  match literal_search pat text with
  | Some found => ([Call_search false pat text], Ret found)
  | None => m <- search false pat text ;; ret (is_some m)
  end.

(** ** Keywords *)

(** Normalisation and case folding, as applied to the message and to each
    keyword. *)
Definition fold_case (s : str) : str :=
  if case_sensitive self then s else lower s.

(** The [try] block returns [Some b] when the search went through and
    [None] when [re.error] was caught and control falls through to the
    literal matching. *)
Definition _match_keyword (text keyword : str) : M bool :=
  let keyword_normalized := fold_case (_normalize_text keyword) in
  returned <-
    (if regex_enabled self then
       try_except
         (let pat :=
            if whole_word self then wb ++ keyword_normalized ++ wb
            else keyword_normalized in
          m <- search false pat text ;;
          ret (Some (is_some m)))
         [re_error]
         (fun _ => log WARNING (Invalid_regex_pattern keyword) ;; ret None)
     else ret None) ;;
  match returned with
  | Some b => ret b
  | None =>
      if whole_word self then search_escaped_word keyword_normalized text
      else ret (contains keyword_normalized text)
  end.

(** ** Price extraction *)

(** [match.group(1)] *)
Definition group1 (m : match_obj) : M (option str) :=
  match groups m with
  | g :: _ => ret g
  | [] => raise IndexError
  end.

(** One turn of the loop over the price patterns: [Some] is the value
    returned, [None] means the loop goes on. *)
Definition try_pattern (text : str) (pattern_config : PricePattern)
  : M (option PriceInfo) :=
  if negb (truthy_str (pattern pattern_config)) then ret None
  else
    let pattern_template := get (pattern pattern_config) [] in
    let pat := replace (lit "{price}") (price_number_regex self) pattern_template in
    try_except
      (m <- search true pat text ;;
       match m with
       | Some mo =>
           price_str <- group1 mo ;;
           price <- _parse_price_string price_str ;;
           match price with
           | Some p =>
               let min_value := get (min_value pattern_config) (Finite 0) in
               if float_ge p min_value then
                 let currency := _detect_currency (group0 mo) in
                 log DEBUG (Price_extracted p currency (description pattern_config)) ;;
                 ret (Some {| value := p; currency := currency |})
               else
                 log DEBUG (Price_below_min_value p min_value) ;;
                 ret None
           | None => ret None
           end
       | None => ret None
       end)
      [IndexError; ValueError; re_error]
      (fun e => log DEBUG (Pattern_failed pat e) ;; ret None).

Fixpoint extract_loop (text : str) (patterns : list PricePattern)
  : M (option PriceInfo) :=
  match patterns with
  | [] => log DEBUG No_price_found ;; ret None
  | pattern_config :: rest =>
      r <- try_pattern text pattern_config ;;
      match r with
      | Some info => ret (Some info)
      | None => extract_loop text rest
      end
  end.

Definition _extract_price (text : str) : M (option PriceInfo) :=
  match price_patterns self with
  | [] => log WARNING No_price_patterns_configured ;; ret None
  | patterns => extract_loop text patterns
  end.

(** ** Products *)

(** The inclusion keywords that match, in catalogue order. *)
Fixpoint collect_keywords (text : str) (kws : list str) : M (list str) :=
  match kws with
  | [] => ret []
  | keyword :: rest =>
      b <- _match_keyword text keyword ;;
      matched <- collect_keywords text rest ;;
      ret (if b then keyword :: matched else matched)
  end.

(** The loop over the exclusion keywords: [true] when one matches. *)
Fixpoint excluded (text : str) (kws : list str) : M bool :=
  match kws with
  | [] => ret false
  | exclude_keyword :: rest =>
      b <- _match_keyword text exclude_keyword ;;
      if b then log DEBUG (Message_excluded exclude_keyword) ;; ret true
      else excluded text rest
  end.

(** [min_price <= price_match <= max_price] *)
Definition in_range (r : PriceRange) (p : float) : bool :=
  let min_price := get (min r) (Finite 0) in
  let max_price := get (max r) (Inf false) in
  float_le min_price p && float_le p max_price.

(** The price step: [None] when the product is given up, otherwise the
    values of [price_match] and [currency]. *)
Definition check_price (message_text : str) (product : Product)
  : M (option (option float * option str)) :=
  if truthy_range (price_range product) then
    price_info <- _extract_price message_text ;;
    match price_info with
    | Some info =>
        let r := get (price_range product) {| min := None; max := None |} in
        if negb (in_range r (value info)) then
          log DEBUG (Price_outside_range (value info) (get (min r) (Finite 0))
                                         (get (max r) (Inf false))) ;;
          ret None
        else ret (Some (Some (value info), Some (currency info)))
    | None => ret (Some (None, None))
    end
  else ret (Some (None, None)).

Definition _match_product (message_text : str) (product : Product)
  : M (option MatchResult) :=
  let normalized_text := _normalize_text message_text in
  let text := fold_case normalized_text in
  matched <- collect_keywords text (keywords product) ;;
  match matched with
  | [] => ret None
  | _ =>
      ex <- excluded text (exclude_keywords product) ;;
      if ex then ret None
      else
        pc <- check_price message_text product ;;
        match pc with
        | None => ret None
        | Some (price_match, cur) =>
            ret (Some {| product_name := get (name product) (lit "Unknown");
                         matched_keywords := matched;
                         price := price_match;
                         res_currency := cur;
                         res_notify := get (notify product) true |})
        end
  end.

Fixpoint match_loop (message_text : str) (ps : list Product)
  : M (list MatchResult) :=
  match ps with
  | [] => ret []
  | product :: rest =>
      match_info <- _match_product message_text product ;;
      matched_products <- match_loop message_text rest ;;
      ret (match match_info with
           | Some r => r :: matched_products
           | None => matched_products
           end)
  end.

Definition match_message (message_text : str) : M (list MatchResult) :=
  match message_text with
  | [] => ret []
  | _ => match_loop message_text (products self)
  end.

End WithEngine.

End Matcher.


From Stdlib Require DecimalPos.

(* ================================================================== *)
(** * More builtins, for [src/monitor.py] *)
(* ================================================================== *)

Module PyMore.

Import Py.
Local Open Scope N_scope.

(** [s.lstrip(c)] for a one-character set. *)
Fixpoint lstrip_char (c : char) (s : str) : str :=
  match s with
  | x :: s' => if x =? c then lstrip_char c s' else s
  | [] => []
  end.

(** [s.split(sep)] for a non-empty [sep]: the pieces between the
    occurrences of [sep], found left to right without overlap.  [cur] is
    the piece under way, last character first; [skip] counts the
    characters of the separator just found that are still to be dropped. *)
Fixpoint split_from (sep : str) (skip : nat) (cur : str) (s : str) : list str :=
  match s with
  | [] => [rev cur]
  | c :: s' =>
      match skip with
      | S k => split_from sep k cur s'
      | O =>
          if startswith sep s
          then rev cur :: split_from sep (pred (List.length sep)) [] s'
          else split_from sep 0 (c :: cur) s'
      end
  end.

Definition split (sep s : str) : list str := split_from sep 0 [] s.

(** [l[0]] on a list of strings that is known to be non-empty. *)
Definition first (l : list str) : str := hd [] l.

(** [int(s)] in base 10 on modelled characters; [None] stands for
    [ValueError].  Surrounding whitespace is dropped; an optional sign is
    followed by digits, with single underscores between digits only.
    Recent interpreters also refuse more than 4300 digits; statements
    that convert a string keep below that length. *)
Definition int_of_str (s : str) : option Z :=
  let '(neg, body) := take_sign (strip s) in
  match digitpart body with
  | Some ds => Some (if neg then (- digits_value ds)%Z else digits_value ds)
  | None => None
  end.

Definition int_max_str_digits : nat := 4300.

(** [str(n)] for an [int]: the decimal digits, after a minus sign for a
    negative number. *)
Fixpoint str_of_uint (u : Decimal.uint) : str :=
  match u with
  | Decimal.Nil => []
  | Decimal.D0 u' => 48 :: str_of_uint u'
  | Decimal.D1 u' => 49 :: str_of_uint u'
  | Decimal.D2 u' => 50 :: str_of_uint u'
  | Decimal.D3 u' => 51 :: str_of_uint u'
  | Decimal.D4 u' => 52 :: str_of_uint u'
  | Decimal.D5 u' => 53 :: str_of_uint u'
  | Decimal.D6 u' => 54 :: str_of_uint u'
  | Decimal.D7 u' => 55 :: str_of_uint u'
  | Decimal.D8 u' => 56 :: str_of_uint u'
  | Decimal.D9 u' => 57 :: str_of_uint u'
  end.

Definition str_of_int (z : Z) : str :=
  match z with
  | Z0 => [48]
  | Zpos p => str_of_uint (Pos.to_uint p)
  | Zneg p => 45 :: str_of_uint (Pos.to_uint p)
  end.

End PyMore.

(* ================================================================== *)
(** * [ChannelMonitor]: the functions that compute on their arguments *)
(* ================================================================== *)

Module Monitor.

Import Py PyMore Eff.
Local Open Scope N_scope.

(** ** Channel identifiers *)

(** A channel identifier of the configuration: an [int] or a [str]. *)
Inductive channel :=
| Int (n : Z)
| Str (s : str).

Definition dash : char := 45.

(** [ValueError] escapes when [int] refuses the string. *)
Definition _normalize_channel_id (channel_id : channel) : res channel :=
  match channel_id with
  | Int n => Ret (Int n)
  | Str s =>
      let channel_str := strip s in
      if isdigit (lstrip_char dash channel_str) then
        match int_of_str channel_str with
        | Some n => Ret (Int n)
        | None => Raise ValueError
        end
      else
        let from_url :=
          if contains (lit "t.me/") (lower channel_str) then
            match split (lit "t.me/") channel_str with
            | _ :: part1 :: _ =>
                let username :=
                  first (split (lit "?") (first (split (lit "/") part1))) in
                Some (strip username)
            | _ => None
            end
          else None in
        match from_url with
        | Some username => Ret (Str username)
        | None =>
            if startswith (lit "@") channel_str
            then Ret (Str (slice_from 1 channel_str))
            else Ret (Str channel_str)
        end
  end.

(** ** Chats and messages *)

(** What the matcher's caller reads of a chat: [username] and [title] are
    [None] when the attribute is missing or [None]. *)
Record Chat := {
  username : option str;
  title : option str;
  chat_ident : Z
}.

(** The log lines of these functions. *)
Inductive monitor_log :=
| Failed_to_get_channel_name
| Failed_to_generate_message_link
| Message_has_no_date (message_id : Z)
| Message_is_older (message_date : Z) (max_age_days : Z).

Definition truthy (s : option str) : bool :=
  match s with
  | Some (_ :: _) => true
  | _ => false
  end.

Definition text_of (s : option str) : str :=
  match s with
  | Some x => x
  | None => []
  end.

(** [_get_channel_name], given what [message.get_chat()] answers: [None]
    when it raises. *)
Definition _get_channel_name (get_chat : option Chat) : list monitor_log * str :=
  match get_chat with
  | Some chat =>
      if truthy (username chat) then ([], lit "@" ++ text_of (username chat))
      else if truthy (title chat) then ([], text_of (title chat))
      else ([], lit "Channel " ++ str_of_int (chat_ident chat))
  | None => ([Failed_to_get_channel_name], lit "Unknown Channel")
  end.

(** [_get_message_link], given the answer of [message.get_chat()] and
    [message.id]. *)
Definition _get_message_link (get_chat : option Chat) (message_id : Z)
  : list monitor_log * str :=
  match get_chat with
  | Some chat =>
      if truthy (username chat) then
        ([], lit "https://t.me/" ++ text_of (username chat) ++ lit "/"
             ++ str_of_int message_id)
      else
        let chat_id := str_of_int (chat_ident chat) in
        let chat_id :=
          if startswith (lit "-100") chat_id then slice_from 4 chat_id
          else chat_id in
        ([], lit "https://t.me/c/" ++ chat_id ++ lit "/" ++ str_of_int message_id)
  | None => ([Failed_to_generate_message_link], [])
  end.

(** ** The age of a message *)

(** A [datetime]: its wall-clock reading in microseconds from the epoch,
    and its offset from UTC in microseconds, [None] for a naive one. *)
Record datetime := { wall : Z; utcoffset : option Z }.

(** The instant of an aware datetime, in UTC. *)
Definition instant (d : datetime) : Z :=
  match utcoffset d with
  | Some o => (wall d - o)%Z
  | None => wall d
  end.

(** [d.replace(tzinfo=timezone.utc)] *)
Definition replace_tzinfo_utc (d : datetime) : datetime :=
  {| wall := wall d; utcoffset := Some 0%Z |}.

Definition microseconds_per_day : Z := 86400000000.

(** [datetime.min], 0001-01-01 00:00:00, in microseconds from the epoch. *)
Definition datetime_min : Z := (-62135596800000000)%Z.

(** [datetime.max], 9999-12-31 23:59:59.999999. *)
Definition datetime_max : Z := 253402300799999999.

(** [timedelta.max.days] *)
Definition timedelta_max_days : Z := 999999999.

(** What a call does: return a boolean or raise [OverflowError]. *)
Inductive verdict :=
| Returns (b : bool)
| OverflowError.

(** [_is_message_too_old], for a whole number of days in
    [max_age_days]; [now] is the reading of [datetime.now(timezone.utc)].
    [timedelta(days=...)] raises beyond [timedelta.max] and the
    subtraction raises below [datetime.min]. *)
Definition _is_message_too_old (max_age_days : option Z) (now : Z)
  (message_id : Z) (date : option datetime) : list monitor_log * verdict :=
  match max_age_days with
  | None => ([], Returns false)
  | Some days =>
      if (days =? 0)%Z || (days <=? 0)%Z then ([], Returns false)
      else
        match date with
        | None => ([Message_has_no_date message_id], Returns false)
        | Some d =>
            if (timedelta_max_days <? days)%Z then ([], OverflowError)
            else
              let cutoff_date := (now - days * microseconds_per_day)%Z in
              if (cutoff_date <? datetime_min)%Z then ([], OverflowError)
              else
                let message_date :=
                  match utcoffset d with
                  | None => replace_tzinfo_utc d
                  | Some _ => d
                  end in
                let is_too_old := (instant message_date <? cutoff_date)%Z in
                (if is_too_old
                 then [Message_is_older (instant message_date) days]
                 else [],
                 Returns is_too_old)
        end
  end.

End Monitor.

(* ================================================================== *)
(** * [Notifier] *)
(* ================================================================== *)

Module Notifier.

Import Py PyMore Eff Matcher Monitor.
Local Open Scope N_scope.

(** The attributes read after construction; the keys of the [telegram]
    mapping are looked up at each call and may be absent. *)
Record Notifier := {
  include_link : bool;
  include_keywords : bool;
  telegram_enabled : option bool;
  telegram_chat_id : option channel
}.

(** What a call leaves behind: the message handed to the client and the
    log line that follows. *)
Inductive effect :=
| Send_message (chat_id : channel) (notification_text : str)
| Log_notification_sent
| Log_failed_to_send.

(** [sep.join(parts)] *)
Fixpoint join (sep : str) (parts : list str) : str :=
  match parts with
  | [] => []
  | [p] => p
  | p :: rest => p ++ sep ++ join sep rest
  end.

(** The truth value of [match_info.get('price')]: a price that is
    present and is not zero. *)
Definition truthy_price (price : option float) : bool :=
  match price with
  | Some (Finite q) => negb (Qeq_bool q 0)
  | Some _ => true
  | None => false
  end.

(** A currency inside an f-string: [None] is spelled out. *)
Definition show_currency (currency : option str) : str :=
  match currency with
  | Some c => c
  | None => lit "None"
  end.

Definition opt (b : bool) (part : str) : list str := if b then [part] else [].

Definition bell : str := [0x1F514].
Definition loudspeaker : str := [0x1F4E2].
Definition clock : str := [0x1F552].
Definition key : str := [0x1F511].
Definition money_bag : str := [0x1F4B0].
Definition memo : str := [0x1F4DD].
Definition link_sign : str := [0x1F517].
Definition newline : str := [10].

Definition max_message_length : Z := 500.

Section WithClient.

(** [format(price_value, '.2f')] and [strftime('%Y-%m-%d %H:%M:%S')], and
    whether [client.send_message] goes through; it raises otherwise. *)
Variable format_2f : float -> str.
Variable strftime : datetime -> str.
Variable delivers : channel -> str -> bool.

Variable self : Notifier.

(** The text built by [_send_telegram_notification]. *)
Definition notification_text (match_info : MatchResult) (message_text : str)
  (message_link channel_name : option str) (message_datetime : option datetime)
  : str :=
  let product_name := product_name match_info in
  let header := [bell ++ lit " **Found: " ++ product_name ++ lit "**" ++ newline] in
  let channel :=
    opt (truthy channel_name)
        (loudspeaker ++ lit " **Channel:** " ++ text_of channel_name) in
  let posted :=
    match message_datetime with
    | Some d => [clock ++ lit " **Posted:** " ++ strftime d]
    | None => []
    end in
  let keywords :=
    opt (include_keywords self &&
         match matched_keywords match_info with [] => false | _ => true end)
        (key ++ lit " **Keywords:** " ++ join (lit ", ") (matched_keywords match_info)) in
  let price_line :=
    if truthy_price (price match_info) then
      let currency := show_currency (res_currency match_info) in
      let price_value := format_2f (get (price match_info) NaN) in
      if str_eqb currency euro
      then [money_bag ++ lit " **Price:** " ++ price_value ++ currency]
      else [money_bag ++ lit " **Price:** " ++ currency ++ price_value]
    else [] in
  let truncated_text :=
    if (len message_text >? max_message_length)%Z
    then slice_to max_message_length message_text ++ lit "..."
    else message_text in
  let message := [memo ++ lit " **Message:**" ++ newline ++ truncated_text] in
  let link :=
    opt (include_link self && truthy message_link)
        (newline ++ link_sign ++ lit " [View Original Message]("
                 ++ text_of message_link ++ lit ")") in
  join newline
    (header ++ channel ++ posted ++ keywords ++ price_line ++ [[]] ++ message ++ link).

Definition _send_telegram_notification (match_info : MatchResult)
  (message_text : str) (message_link channel_name : option str)
  (message_datetime : option datetime) : list effect :=
  let text := notification_text match_info message_text message_link
                channel_name message_datetime in
  let chat_id := get (telegram_chat_id self) (Str (lit "me")) in
  if delivers chat_id text
  then [Send_message chat_id text; Log_notification_sent]
  else [Send_message chat_id text; Log_failed_to_send].

Definition send_notification (match_info : MatchResult)
  (message_text : str) (message_link channel_name : option str)
  (message_datetime : option datetime) : list effect :=
  if negb (res_notify match_info) then []
  else if get (telegram_enabled self) true then
    _send_telegram_notification match_info message_text message_link
      channel_name message_datetime
  else [].

End WithClient.

End Notifier.

(* ================================================================== *)
(** * The statements of the specification *)
(* ================================================================== *)

Module Spec.

Import Py Re Eff Matcher.
Local Open Scope N_scope.

(** ** Keyword matching *)

(** Literal matching of a folded keyword: between word boundaries when
    [whole_word] is set, plain containment otherwise. *)
Definition literal_match (self : ProductMatcher) (kw text : str) : bool :=
  if whole_word self then word_search kw text else contains kw text.



(** The pattern given to the engine for a folded keyword. *)
Definition keyword_pattern (self : ProductMatcher) (kw : str) : str :=
  if whole_word self then wb ++ kw ++ wb else kw.

(** The answer of the keyword matcher on a folded text, read off the
    engine's answer. *)
Definition keyword_hit (re_search : engine) (self : ProductMatcher)
  (text keyword : str) : bool :=
  let kw := fold_case self (_normalize_text keyword) in
  if regex_enabled self then
    match re_search false (keyword_pattern self kw) text with
    | Match _ => true
    | NoMatch => false
    | Error => literal_match self kw text
    end
  else literal_match self kw text.

(** [matches(text, keyword)] on a raw message text and a raw keyword:
    both are normalised and case-folded, then the keyword matcher runs. *)
Definition matches (re_search : engine) (self : ProductMatcher)
  (message_text keyword : str) : res bool :=
  result (_match_keyword re_search self
            (fold_case self (_normalize_text message_text)) keyword).

(** The capital look-alikes whose small form is no look-alike, and those
    small forms: the Cyrillic letters Ve, Ka, Em, En and Te. *)
Definition has_key (c : char) : bool :=
  existsb (fun kv => fst kv =? c) CYRILLIC_TO_LATIN.

Definition capital_only : list char :=
  filter (fun k => negb (lower_char k =? k) && negb (has_key (lower_char k)))
         (map fst CYRILLIC_TO_LATIN).

Definition small_of_capital_only : list char := map lower_char capital_only.

Definition avoids (l : list char) (s : str) : bool :=
  forallb (fun c => negb (existsb (N.eqb c) l)) s.

(** ** Currency detection *)

(** Case-insensitive containment: containment once both sides are folded
    to lower case. *)
Definition contains_ci (token span : str) : bool :=
  contains (lower token) (lower span).

(** The token groups, in the order they are tried, each with its symbol. *)
Definition euro_tokens : list str := [euro; lit "EUR"; evro].
Definition dollar_tokens : list str := [lit "$"; lit "USD"; lit "dollar"; dollar_ru].

Definition currency_groups : list (str * list str) :=
  [(euro, euro_tokens); (lit "$", dollar_tokens)].

Definition group_present (tokens : list str) (span : str) : bool :=
  existsb (fun token => contains_ci token span) tokens.

(** The symbol of the first group with a token in the span, or the empty
    string. *)
Definition first_group (span : str) : str :=
  match find (fun g => group_present (snd g) span) currency_groups with
  | Some g => fst g
  | None => []
  end.

(** ** The rightmost-separator rule *)

(** Exactly one or two characters, all digits. *)
Definition one_or_two_digits (s : str) : bool :=
  match s with
  | [a] => isdigit_char a
  | [a; b] => isdigit_char a && isdigit_char b
  | _ => false
  end.

(** Every separator and every whitespace character removed. *)
Definition strip_all (s : str) : str :=
  filter (fun c => negb ((c =? dot) || (c =? comma) || isspace c)) s.

(** The rule as the specification words it: of the rightmost dot and the
    rightmost comma of the trimmed string, the later one is the decimal
    separator when exactly one or two digits follow it to the end; the
    integer part is then what precedes it without separators and
    whitespace.  Otherwise all separators and whitespace go and the rest
    is parsed as it stands. *)
Definition rule_parse (raw : str) : option float :=
  let t := strip raw in
  let later := Z.max (rfind dot t) (rfind comma t) in
  if (0 <=? later)%Z && one_or_two_digits (slice_from (later + 1) t) then
    float_of_str (strip_all (slice_to later t) ++ [dot] ++ slice_from (later + 1) t)
  else float_of_str (strip_all t).

(** Inner whitespace limited to the space and the no-break space. *)
Definition plain_spaces (s : str) : bool :=
  forallb (fun c => negb (isspace c) || (c =? space) || (c =? nbsp)) s.

(** A dot or a comma followed by one or two digits and nothing else, as
    in [.5] and [,56]: the later separator is the first character and
    would be the decimal separator. *)
Definition lone_fraction (s : str) : bool :=
  match s with
  | c :: ds => ((c =? dot) || (c =? comma)) && one_or_two_digits ds
  | [] => false
  end.

(** ** Price patterns *)

(** The pattern searched for a template: the placeholder replaced by the
    numeric sub-pattern. *)
Definition substituted (self : ProductMatcher) (template : str) : str :=
  replace (lit "{price}") (price_number_regex self) template.

(** The value a raw numeric substring parses to, if any. *)
Definition parsed (s : str) : option float :=
  match result (_parse_price_string (Some s)) with
  | Ret v => v
  | Raise _ => None
  end.

(** A price pattern qualifies on a text with a price when its substituted
    pattern matches, the first capturing group parses to a value at or
    above the pattern's [min_value] (0 when absent), and the currency is
    the one detected in the whole matched span. *)
Definition qualifies (re_search : engine) (self : ProductMatcher)
  (text : str) (pc : PricePattern) (info : PriceInfo) : Prop :=
  exists template mo s,
    pattern pc = Some template /\ template <> [] /\
    re_search true (substituted self template) text = Match mo /\
    nth_error (groups mo) 0 = Some (Some s) /\
    parsed s = Some (value info) /\
    float_le (get (min_value pc) (Finite 0)) (value info) = true /\
    currency info = _detect_currency (group0 mo).

(** What one price pattern contributes, read off the engine's answer. *)
Definition pattern_yield (re_search : engine) (self : ProductMatcher)
  (text : str) (pc : PricePattern) : option PriceInfo :=
  match pattern pc with
  | Some (c :: t) =>
      match re_search true (substituted self (c :: t)) text with
      | Match mo =>
          match groups mo with
          | Some s :: _ =>
              match parsed s with
              | Some p =>
                  if float_le (get (min_value pc) (Finite 0)) p
                  then Some {| value := p;
                               currency := _detect_currency (group0 mo) |}
                  else None
              | None => None
              end
          | _ => None
          end
      | _ => None
      end
  | _ => None
  end.

(** A price pattern falls short on a text when it matches and its first
    group parses to a value below the pattern's [min_value]. *)
Definition below_min_value (re_search : engine) (self : ProductMatcher)
  (text : str) (pc : PricePattern) : Prop :=
  exists template mo s p,
    pattern pc = Some template /\ template <> [] /\
    re_search true (substituted self template) text = Match mo /\
    nth_error (groups mo) 0 = Some (Some s) /\
    parsed s = Some p /\
    float_le (get (min_value pc) (Finite 0)) p = false.

(** The patterns that have a template, as searched. *)
Definition searched_patterns (self : ProductMatcher)
  (pcs : list PricePattern) : list str :=
  flat_map (fun pc => match pattern pc with
                      | Some (c :: t) => [substituted self (c :: t)]
                      | _ => []
                      end) pcs.

(** ** Products *)

(** The price the extractor returns on a text, if any. *)
Definition extracted (re_search : engine) (self : ProductMatcher)
  (text : str) : option PriceInfo :=
  match result (_extract_price re_search self text) with
  | Ret o => o
  | Raise _ => None
  end.

(** The outcome of the price step of a product, read off the extractor's
    answer. *)
Definition price_view (re_search : engine) (self : ProductMatcher)
  (message_text : str) (product : Product)
  : option (option float * option str) :=
  if truthy_range (price_range product) then
    match extracted re_search self message_text with
    | Some info =>
        if in_range (get (price_range product) {| min := None; max := None |})
                    (value info)
        then Some (Some (value info), Some (currency info))
        else None
    | None => Some (None, None)
    end
  else Some (None, None).

(** The outcome of a product, read off the keyword and price steps. *)
Definition product_view (re_search : engine) (self : ProductMatcher)
  (message_text : str) (product : Product) : option MatchResult :=
  let text := fold_case self (_normalize_text message_text) in
  match filter (keyword_hit re_search self text) (keywords product) with
  | [] => None
  | matched =>
      if existsb (keyword_hit re_search self text) (exclude_keywords product)
      then None
      else
        match price_view re_search self message_text product with
        | Some (price_match, cur) =>
            Some {| product_name := get (name product) (lit "Unknown");
                    matched_keywords := matched;
                    price := price_match;
                    res_currency := cur;
                    res_notify := get (notify product) true |}
        | None => None
        end
  end.

(** The result a product yields once its keywords are settled. *)
Definition result_with (product : Product) (matched : list str)
  (price_match : option float) (cur : option str) : MatchResult :=
  {| product_name := get (name product) (lit "Unknown");
     matched_keywords := matched;
     price := price_match;
     res_currency := cur;
     res_notify := get (notify product) true |}.

(** The match results a message yields for one product. *)
Definition results_for (re_search : engine) (self : ProductMatcher)
  (message_text : str) (product : Product) : list MatchResult :=
  match result (_match_product re_search self message_text product) with
  | Ret (Some r) => [r]
  | _ => []
  end.

End Spec.

(* ================================================================== *)
(** * Sample data *)
(* ================================================================== *)

Module Samples.

Import Py Re Eff Matcher.
Local Open Scope N_scope.

(** An engine given by the answers of [re.search] on finitely many calls;
    it finds nothing on any other call. *)
Definition answers := list (bool * str * str * outcome).

Fixpoint table_engine (tbl : answers) : engine :=
  fun ignorecase pat text =>
    match tbl with
    | [] => NoMatch
    | (i, p, t, o) :: rest =>
        if Bool.eqb ignorecase i && str_eqb pat p && str_eqb text t then o
        else table_engine rest ignorecase pat text
    end.

(** A matcher with the default settings and no catalogue. *)
Definition defaults : ProductMatcher :=
  {| products := [];
     case_sensitive := false;
     whole_word := false;
     regex_enabled := true;
     price_patterns := [];
     price_number_regex := default_price_number_regex |}.





(** A catalogue of one product, a phone between 100 and 500, and one
    price pattern, a dollar sign before the number. *)
Definition phone : Product :=
  {| name := Some (lit "Phone");
     keywords := [lit "phone"];
     exclude_keywords := [lit "scam"];
     price_range := Some {| min := Some (Finite 100%Q); max := Some (Finite 500%Q) |};
     notify := None |}.

Definition dollar_pattern : PricePattern :=
  {| pattern := Some (lit "\$\s*{price}");
     min_value := None;
     description := Some (lit "dollar sign first") |}.

Definition shop : ProductMatcher :=
  {| products := [phone];
     case_sensitive := false;
     whole_word := false;
     regex_enabled := true;
     price_patterns := [dollar_pattern];
     price_number_regex := default_price_number_regex |}.

Definition dollar_regex : str :=
  lit "\$\s*(\d{1,4}(?:[,\s]\d{3})*(?:[.,]\d{1,2})?)".

Definition priced_message : str :=
  lit "Selling a phone for $250, great condition".
Definition unpriced_message : str :=
  lit "Selling a phone, great condition".
Definition scam_message : str :=
  lit "phone for $250, not a scam".

Definition found (span : str) (gs : list (option str)) : outcome :=
  Match {| group0 := span; groups := gs |}.

(** The answers of [re.search] on the calls these messages lead to. *)
Definition shop_engine : engine :=
  table_engine
    [ (false, lit "phone", lit "selling a phone for $250, great condition",
       found (lit "phone") []);
      (false, lit "scam", lit "selling a phone for $250, great condition",
       NoMatch);
      (true, dollar_regex, priced_message, found (lit "$250") [Some (lit "250")]);
      (false, lit "phone", lit "selling a phone, great condition",
       found (lit "phone") []);
      (false, lit "scam", lit "selling a phone, great condition", NoMatch);
      (true, dollar_regex, unpriced_message, NoMatch);
      (false, lit "phone", lit "phone for $250, not a scam",
       found (lit "phone") []);
      (false, lit "scam", lit "phone for $250, not a scam",
       found (lit "scam") []) ].

(** Three price patterns: a number before the euro sign, from 500 up; a
    dollar sign before the number, from 100 up; a number before [usd]. *)
Definition number_regex : str := default_price_number_regex.

Definition euro_pattern : PricePattern :=
  {| pattern := Some (lit "{price}\s*" ++ euro);
     min_value := Some (Finite 500%Q);
     description := Some (lit "euro sign last") |}.

Definition dollar_pattern_100 : PricePattern :=
  {| pattern := Some (lit "\$\s*{price}");
     min_value := Some (Finite 100%Q);
     description := Some (lit "dollar sign first") |}.

Definition usd_pattern : PricePattern :=
  {| pattern := Some (lit "{price}\s*usd");
     min_value := None;
     description := None |}.

Definition market : ProductMatcher :=
  {| products := [];
     case_sensitive := false;
     whole_word := false;
     regex_enabled := true;
     price_patterns := [euro_pattern; dollar_pattern_100; usd_pattern];
     price_number_regex := default_price_number_regex |}.

Definition market_message : str :=
  lit "Laptop 250" ++ euro ++ lit " or $300 or 300 usd".

(** The answers of [re.search] with [re.IGNORECASE] for the three
    patterns on that message. *)
Definition market_engine : engine :=
  table_engine
    [ (true, number_regex ++ lit "\s*" ++ euro, market_message,
       found (lit "250" ++ euro) [Some (lit "250")]);
      (true, lit "\$\s*" ++ number_regex, market_message,
       found (lit "$300") [Some (lit "300")]);
      (true, number_regex ++ lit "\s*usd", market_message,
       found (lit "300 usd") [Some (lit "300")]) ].

(** [re.search('b', 'b')] finds the letter; the Cyrillic small Ve is
    not a [b]. *)
Definition letter_engine : engine :=
  table_engine [(false, lit "b", lit "b", found (lit "b") [])].

(** [re.search('phone', 'iphone 12')] *)
Definition iphone_engine : engine :=
  table_engine [(false, lit "phone", lit "iphone 12", found (lit "phone") [])].

End Samples.

(* ================================================================== *)
(** * Notions for the further properties *)
(* ================================================================== *)

Module MoreSpec.

Import Py PyMore Re Eff Matcher Spec.
Local Open Scope N_scope.

(** The same matcher over another catalogue. *)
Definition with_products (self : ProductMatcher) (ps : list Product)
  : ProductMatcher :=
  {| products := ps;
     case_sensitive := case_sensitive self;
     whole_word := whole_word self;
     regex_enabled := regex_enabled self;
     price_patterns := price_patterns self;
     price_number_regex := price_number_regex self |}.

(** What a product contributes to the results of a message. *)
Definition own_results (re_search : search_fn) (self : ProductMatcher)
  (message_text : str) (product : Product) : list MatchResult :=
  match result (_match_product re_search self message_text product) with
  | Ret (Some r) => [r]
  | _ => []
  end.

(** The handler around a call of [re.search] takes the exception: the
    keyword matcher, which searches without [re.IGNORECASE], handles
    [re.error]; the price extractor, which searches with it, handles
    [IndexError], [ValueError] and [re.error]. *)
Definition caught (ignorecase : bool) (e : exn) : bool :=
  existsb (exn_eqb e)
          (if ignorecase then [IndexError; ValueError; re_error] else [re_error]).

(** The exception was raised by a call of [re.search] recorded in the
    trace, and the handler around that call does not take it. *)
Definition escapes (re_search : search_fn) (e : exn) (t : list event) : Prop :=
  exists ignorecase pat text,
    In (Call_search ignorecase pat text) t /\
    re_search ignorecase pat text = Raised e /\
    caught ignorecase e = false.

(** Dots for commas and commas for dots. *)
Definition swap_separator (c : char) : char :=
  if c =? dot then comma else if c =? comma then dot else c.

Definition swap_separators (s : str) : str := map swap_separator s.

(** A call of the engine made for a keyword: without [re.IGNORECASE], on
    the given text. *)
Definition keyword_call (text : str) (e : event) : Prop :=
  match e with
  | Call_search ignorecase _ t => ignorecase = false /\ t = text
  | Log _ _ => True
  end.

(** A call of the engine made for a price pattern: with [re.IGNORECASE],
    on the given text. *)
Definition price_call (text : str) (e : event) : Prop :=
  match e with
  | Call_search ignorecase _ t => ignorecase = true /\ t = text
  | Log _ _ => True
  end.

Definition no_call (e : event) : Prop :=
  match e with
  | Call_search _ _ _ => False
  | Log _ _ => True
  end.

(** A character stands for another when it is that character or a
    look-alike of it in the table. *)
Definition stands_for (c' c : char) : Prop :=
  c' = c \/ In (c', c) CYRILLIC_TO_LATIN.

(** The keys of the look-alike table. *)
Definition lookalikes : list char := map fst CYRILLIC_TO_LATIN.

(** What normalisation makes of one character: its counterpart in the
    table for a look-alike, the character itself otherwise. *)
Definition normalized_as (c c' : char) : Prop :=
  if existsb (N.eqb c) lookalikes then In (c, c') CYRILLIC_TO_LATIN else c' = c.

(** ** Channel identifiers *)

Definition ascii_letter (c : char) : bool := between 65 90 c || between 97 122 c.

Definition ascii_word (c : char) : bool :=
  ascii_letter c || between 48 57 c || (c =? 95).

(** A plain user name: a letter followed by letters, digits and
    underscores. *)
Definition plain_username (u : str) : bool :=
  match u with
  | c :: rest => ascii_letter c && forallb ascii_word rest
  | [] => false
  end.

Definition ends_with_space (s : str) : bool :=
  match rev s with
  | c :: _ => isspace c
  | [] => false
  end.

(** What may follow the user name in a link: nothing, or a path or a
    query that does not end in whitespace. *)
Definition link_tail (r : str) : bool :=
  match r with
  | [] => true
  | c :: _ => ((c =? 47) || (c =? 63)) && negb (ends_with_space r)
  end.

(** The ways of writing the address of a channel before the user name. *)
Definition url_prefixes : list str :=
  [lit "https://t.me/"; lit "http://t.me/"; lit "t.me/"].

(** The characters of a string before the first [c]. *)
Fixpoint upto (c : char) (s : str) : str :=
  match s with
  | [] => []
  | x :: s' => if x =? c then [] else x :: upto c s'
  end.

(** The value of a string of decimal digits. *)
Definition decimal_value (ds : str) : Z :=
  digits_value (map (fun c => c - 48) ds).

(** ** Notifications *)


(** ** The age of a message *)

(** What the age check does, its log left aside. *)
Definition verdict_of (max_age_days : option Z) (now message_id : Z)
  (date : option Monitor.datetime) : Monitor.verdict :=
  snd (Monitor._is_message_too_old max_age_days now message_id date).

End MoreSpec.

Module MoreSamples.

Import Py PyMore Re Eff Matcher Monitor Samples.
Local Open Scope N_scope.

(** The phone shop with pattern matching disabled and a product that has
    no price range. *)
Definition plain_phone : Product :=
  {| name := None;
     keywords := [lit "phone"; []];
     exclude_keywords := [lit "scam"];
     price_range := Some {| min := None; max := None |};
     notify := Some false |}.

Definition literal_shop : ProductMatcher :=
  {| products := [plain_phone];
     case_sensitive := false;
     whole_word := false;
     regex_enabled := false;
     price_patterns := [dollar_pattern];
     price_number_regex := default_price_number_regex |}.

Definition whole_word_shop : ProductMatcher :=
  {| products := [plain_phone];
     case_sensitive := false;
     whole_word := true;
     regex_enabled := false;
     price_patterns := [];
     price_number_regex := default_price_number_regex |}.

(** An engine that refuses every pattern. *)
Definition refusing_engine : engine := fun _ _ _ => Error.

(** [iPhone] written with a Cyrillic Er, o and ie. *)
Definition disguised_iphone : str := [105; 0x420; 104; 0x43E; 110; 0x435].

(** A public channel and a message date. *)
Definition durov : Chat :=
  {| username := Some (lit "durov"); title := Some (lit "Durov's Channel");
     chat_ident := (-1001006503122)%Z |}.

(** 2024-01-01 12:00:00 UTC and the same instant written at UTC+2. *)
Definition new_year_noon : datetime :=
  {| wall := 1704110400000000%Z; utcoffset := Some 0%Z |}.

(** A notifier with the default settings, a client that delivers, and
    fixed renderings of the price and of the date. *)
Definition default_notifier : Notifier.Notifier :=
  {| Notifier.include_link := true;
     Notifier.include_keywords := true;
     Notifier.telegram_enabled := None;
     Notifier.telegram_chat_id := None |}.

Definition sample_format_2f : float -> str := fun _ => lit "250.00".
Definition sample_strftime : datetime -> str := fun _ => lit "2024-01-01 12:00:00".
Definition always_delivers : channel -> str -> bool := fun _ _ => true.

End MoreSamples.
(* ================================================================== *)
(** * The search for an escaped keyword *)
(* ================================================================== *)

Module EscapeFacts.

Import Py Re Eff Eff.Notations Matcher Spec.
Local Open Scope N_scope.

Lemma special_not_b c : special c = true -> (c =? letter_b) = false.
Proof.
  intros H. destruct (N.eqb_spec c letter_b) as [-> | _]; [| reflexivity].
  vm_compute in H. discriminate.
Qed.

Lemma plain_not_backslash c : special c = false -> (c =? backslash) = false.
Proof.
  intros H. destruct (N.eqb_spec c backslash) as [-> | _]; [| reflexivity].
  vm_compute in H. discriminate.
Qed.

(** An escaped keyword is read back as the keyword, character by
    character. *)
Lemma tokens_escape kw p ts :
  tokens p = Some ts -> tokens (escape kw ++ p) = Some (map Literal kw ++ ts).
Proof.
  intros Hp. unfold escape.
  induction kw as [| c kw IH]; [exact Hp |].
  cbn [flat_map map]. rewrite <- app_assoc.
  destruct (special c) eqn:Hc; cbn [app tokens].
  - change (92 =? backslash) with true. cbv iota.
    rewrite (@special_not_b _ Hc), Hc.
    exact (f_equal (option_map (cons (Literal c))) IH).
  - rewrite (@plain_not_backslash _ Hc), Hc.
    exact (f_equal (option_map (cons (Literal c))) IH).
Qed.

Lemma tokens_escaped_word kw :
  tokens (wb ++ escape kw ++ wb) = Some (Boundary :: map Literal kw ++ [Boundary]).
Proof.
  change (wb ++ escape kw ++ wb) with (92 :: 98 :: escape kw ++ wb).
  cbn [tokens]. change (92 =? backslash) with true.
  change (98 =? letter_b) with true. cbv iota.
  now rewrite (@tokens_escape kw wb [Boundary] eq_refl).
Qed.

Lemma last_cons {A} (a d : A) l : last (a :: l) d = last l a.
Proof.
  revert a d. induction l as [| b l IH]; intros a d; [reflexivity |].
  change (last (a :: b :: l) d) with (last (b :: l) d).
  now rewrite !IH.
Qed.

Lemma match_here_literals kw : forall prev s,
  match_here (map Literal kw ++ [Boundary]) prev s =
  startswith kw s &&
  boundary (last (map Some kw) prev) (hd_error (skipn (List.length kw) s)).
Proof.
  induction kw as [| c kw IH]; intros prev s.
  - cbn. now rewrite andb_true_r.
  - cbn [map app match_here startswith]. destruct s as [| x s]; [reflexivity |].
    rewrite IH. cbn [List.length skipn]. rewrite (N.eqb_sym x c), andb_assoc.
    destruct (N.eqb_spec c x) as [-> | _]; [| reflexivity].
    now rewrite last_cons.
Qed.

Lemma match_here_word kw prev s :
  match_here (Boundary :: map Literal kw ++ [Boundary]) prev s = word_at kw prev s.
Proof.
  cbn [match_here]. rewrite match_here_literals. unfold word_at.
  now rewrite andb_assoc.
Qed.

Lemma search_tokens_word kw : forall s prev,
  search_tokens (Boundary :: map Literal kw ++ [Boundary]) prev s =
  word_search_from kw prev s.
Proof.
  induction s as [| c s IH]; intros prev;
    cbn [search_tokens word_search_from]; rewrite match_here_word;
    [reflexivity | now rewrite IH].
Qed.

(** The search of the pattern made for a keyword finds the keyword
    between two word boundaries. *)
Lemma literal_search_escaped kw text :
  literal_search (wb ++ escape kw ++ wb) text = Some (word_search kw text).
Proof.
  unfold literal_search. rewrite tokens_escaped_word. cbn [option_map].
  unfold word_search. now rewrite search_tokens_word.
Qed.

Lemma search_escaped_word_eq (re_search : search_fn) kw text :
  search_escaped_word re_search kw text =
  ([Call_search false (wb ++ escape kw ++ wb) text], Ret (word_search kw text)).
Proof.
  unfold search_escaped_word. cbv zeta. now rewrite literal_search_escaped.
Qed.





End EscapeFacts.

(* ================================================================== *)
(** * Reasoning about computations *)
(* ================================================================== *)

Module EffFacts.

Import Eff Eff.Notations.

Lemma result_bind {A B} (m : M A) (k : A -> M B) :
  result (bind m k) =
  match result m with
  | Ret a => result (k a)
  | Raise e => Raise e
  end.
Proof.
  destruct m as [t [a | e]]; simpl; [destruct (k a) |]; reflexivity.
Qed.

Lemma trace_bind {A B} (m : M A) (k : A -> M B) :
  trace (bind m k) =
  trace m ++ match result m with
             | Ret a => trace (k a)
             | Raise _ => []
             end.
Proof.
  destruct m as [t [a | e]]; simpl; [destruct (k a) |]; simpl;
    auto using app_nil_r.
Qed.

Lemma result_try {A} (m : M A) hs (h : exn -> M A) :
  result (try_except m hs h) =
  match result m with
  | Ret a => Ret a
  | Raise e => if existsb (exn_eqb e) hs then result (h e) else Raise e
  end.
Proof.
  destruct m as [t [a | e]]; simpl; [reflexivity |].
  destruct (existsb (exn_eqb e) hs); [destruct (h e) |]; reflexivity.
Qed.

Lemma trace_try {A} (m : M A) hs (h : exn -> M A) :
  trace (try_except m hs h) =
  trace m ++ match result m with
             | Ret _ => []
             | Raise e => if existsb (exn_eqb e) hs then trace (h e) else []
             end.
Proof.
  destruct m as [t [a | e]]; simpl; [auto using app_nil_r |].
  destruct (existsb (exn_eqb e) hs); [destruct (h e) |]; simpl;
    auto using app_nil_r.
Qed.

Lemma returns_ret {A} (a : A) : returns (ret a).
Proof. exists a; reflexivity. Qed.

Lemma returns_bind {A B} (m : M A) (k : A -> M B) :
  returns m -> (forall a, returns (k a)) -> returns (bind m k).
Proof.
  intros [a Ha] Hk. destruct (Hk a) as [b Hb].
  exists b. rewrite result_bind, Ha. exact Hb.
Qed.

Lemma searched_app t1 t2 : searched (t1 ++ t2) = searched t1 ++ searched t2.
Proof. unfold searched. apply flat_map_app. Qed.

Create HintDb eff.
#[export] Hint Resolve returns_ret returns_bind : eff.

End EffFacts.

(* ================================================================== *)
(** * Text normalisation *)
(* ================================================================== *)

Module NormalizeFacts.

Import Py Matcher.
Local Open Scope N_scope.

(** A lookup yields the default or one of the table's values. *)
Lemma table_get_cases d k x :
  table_get d k x = x \/ In (table_get d k x) (map snd d).
Proof.
  induction d as [| [k' v] d IH]; simpl; [now left |].
  destruct (k =? k'); [right; now left |].
  destruct IH; [now left | right; now right].
Qed.

(** No value of the look-alike table is one of its keys. *)
Lemma values_are_not_keys :
  Forall (fun v => forallb (fun kv => negb (fst kv =? v)) CYRILLIC_TO_LATIN = true)
         (map snd CYRILLIC_TO_LATIN).
Proof. repeat constructor. Qed.

Lemma table_get_not_key d v :
  forallb (fun kv => negb (fst kv =? v)) d = true -> table_get d v v = v.
Proof.
  induction d as [| [k' w] d IH]; simpl; [reflexivity |].
  intros H. apply andb_true_iff in H as [Hk Hd].
  rewrite N.eqb_sym. apply negb_true_iff in Hk. rewrite Hk. auto.
Qed.

Lemma normalize_char_idem c :
  let c' := table_get CYRILLIC_TO_LATIN c c in
  table_get CYRILLIC_TO_LATIN c' c' = c'.
Proof.
  intros c'. subst c'.
  destruct (table_get_cases CYRILLIC_TO_LATIN c c) as [E | Hin].
  - rewrite E. exact E.
  - apply table_get_not_key.
    exact (proj1 (Forall_forall _ _) values_are_not_keys _ Hin).
Qed.

(** C8. Normalisation is idempotent: normalising a normalised string
    changes nothing, for every string; and no character that the
    look-alike table produces is itself a key of the table. *)
Theorem normalize_idempotent :
  (forall x : str, _normalize_text (_normalize_text x) = _normalize_text x) /\
  (forall k v, In (k, v) CYRILLIC_TO_LATIN ->
               forall v', ~ In (v, v') CYRILLIC_TO_LATIN).
Proof.
  split.
  - intros x. unfold _normalize_text. rewrite map_map.
    apply map_ext. intros c. apply normalize_char_idem.
  - intros k v Hin v' Hin'.
    assert (Hv : In v (map snd CYRILLIC_TO_LATIN)) by (apply (in_map snd _ _ Hin)).
    pose proof (proj1 (Forall_forall _ _) values_are_not_keys _ Hv) as Hnk.
    rewrite forallb_forall in Hnk. specialize (Hnk _ Hin'). simpl in Hnk.
    rewrite N.eqb_refl in Hnk. discriminate.
Qed.

(** The obfuscated spelling of [iPhone] with Cyrillic Er, o and ie. *)
Lemma normalize_idempotent_witness :
  _normalize_text (_normalize_text [105; 0x420; 104; 0x43E; 110; 0x435]) =
  _normalize_text [105; 0x420; 104; 0x43E; 110; 0x435] /\
  ~ In (80, 80) CYRILLIC_TO_LATIN.
Proof.
  split.
  - apply (proj1 normalize_idempotent).
  - apply (proj2 normalize_idempotent 0x420 80). simpl. tauto.
Defined.

End NormalizeFacts.

(* ================================================================== *)
(** * The keyword matcher *)
(* ================================================================== *)

Module KeywordFacts.

Import Py Re Eff Eff.Notations EffFacts EscapeFacts Matcher Spec.

Section WithEngine.

Variable re_search : engine.
Variable self : ProductMatcher.

(** What the keyword matcher returns, read off the engine's answer. *)
Lemma match_keyword_result text keyword :
  result (_match_keyword re_search self text keyword) =
  Ret (keyword_hit re_search self text keyword).
Proof.
  unfold _match_keyword, keyword_hit, keyword_pattern, literal_match, search, lift.
  rewrite search_escaped_word_eq.
  destruct (regex_enabled self), (whole_word self); try reflexivity;
    destruct (re_search false _ text); reflexivity.
Qed.

Lemma match_keyword_returns text keyword :
  returns (_match_keyword re_search self text keyword).
Proof. eexists. apply match_keyword_result. Qed.

End WithEngine.

Section WithSearch.

Variable re_search : search_fn.
Variable self : ProductMatcher.

(** The run of the keyword matcher when pattern matching is enabled, by
    what the search of the keyword's pattern does. *)
Lemma match_keyword_run text keyword :
  regex_enabled self = true ->
  let kw := fold_case self (_normalize_text keyword) in
  let pat := keyword_pattern self kw in
  _match_keyword re_search self text keyword =
  match re_search false pat text with
  | Returned m => ([Call_search false pat text], Ret (is_some m))
  | Raised re_error =>
      (Call_search false pat text :: Log WARNING (Invalid_regex_pattern keyword)
       :: (if whole_word self
           then [Call_search false (wb ++ escape kw ++ wb) text] else []),
       Ret (literal_match self kw text))
  | Raised e => ([Call_search false pat text], Raise e)
  end.
Proof.
  intros Hre. cbv zeta.
  unfold _match_keyword, search, keyword_pattern, literal_match.
  rewrite Hre, search_escaped_word_eq.
  destruct (whole_word self);
    (destruct (re_search false _ text) as [[] | m]; reflexivity).
Qed.


End WithSearch.



End KeywordFacts.

(* ================================================================== *)
(** * The price extractor *)
(* ================================================================== *)

Module ExtractFacts.

Import Py Re Eff Eff.Notations EffFacts Matcher Spec.

(** The parser returns on every input, a value or [None]. *)
Lemma parse_result price_str :
  result (_parse_price_string price_str) =
  Ret (match price_str with
       | Some s => float_of_str (join_parts (strip s))
       | None => None
       end).
Proof.
  unfold _parse_price_string. destruct price_str as [s |]; simpl.
  - destruct (float_of_str (join_parts (strip s))); reflexivity.
  - reflexivity.
Qed.

Lemma parse_no_search price_str :
  searched (trace (_parse_price_string price_str)) = [].
Proof.
  unfold _parse_price_string. destruct price_str as [s |]; simpl.
  - destruct (float_of_str (join_parts (strip s))); reflexivity.
  - reflexivity.
Qed.

Lemma parsed_eq s : parsed s = float_of_str (join_parts (strip s)).
Proof. unfold parsed. rewrite parse_result. reflexivity. Qed.

Section WithEngine.

Variable re_search : engine.
Variable self : ProductMatcher.

Lemma try_pattern_spec text pc :
  result (try_pattern re_search self text pc) =
    Ret (pattern_yield re_search self text pc) /\
  searched (trace (try_pattern re_search self text pc)) =
    searched_patterns self [pc].
Proof.
  unfold try_pattern, pattern_yield, searched_patterns, search, group1, lift.
  cbn [flat_map].
  destruct (pattern pc) as [[| c t] |]; simpl; auto.
  fold (substituted self (c :: t)).
  destruct (re_search true (substituted self (c :: t)) text) as [| | mo];
    simpl; auto.
  destruct (groups mo) as [| g gs]; simpl; auto.
  pose proof (parse_result g) as Hr. pose proof (parse_no_search g) as Ht.
  destruct (_parse_price_string g) as [tp [v | e]]; simpl in *;
    [| discriminate].
  injection Hr as ->.
  destruct g as [s |]; simpl.
  - rewrite parsed_eq.
    destruct (float_of_str (join_parts (strip s))) as [p |]; simpl.
    + unfold float_ge.
      destruct (float_le (get (min_value pc) (Finite 0)) p); simpl;
        rewrite searched_app, Ht; auto.
    + rewrite app_nil_r, Ht. auto.
  - rewrite app_nil_r, Ht. auto.
Qed.

Lemma yield_qualifies text pc info :
  pattern_yield re_search self text pc = Some info <->
  qualifies re_search self text pc info.
Proof.
  unfold pattern_yield, qualifies. split.
  - destruct (pattern pc) as [[| c t] |]; try discriminate.
    destruct (re_search true _ text) as [| | mo] eqn:Hs; try discriminate.
    destruct (groups mo) as [| [s |] gs] eqn:Hg; try discriminate.
    destruct (parsed s) as [p |] eqn:Hp; try discriminate.
    destruct (float_le _ p) eqn:Hle; try discriminate.
    intros [= <-]. exists (c :: t), mo, s. simpl. rewrite Hg.
    repeat split; auto. discriminate.
  - intros (template & mo & s & Hpat & Hne & Hs & Hg & Hp & Hle & Hc).
    rewrite Hpat. destruct template as [| c t]; [congruence |].
    rewrite Hs. destruct (groups mo) as [| g gs]; [discriminate |].
    simpl in Hg. injection Hg as ->. rewrite Hp, Hle.
    destruct info as [v cur]. simpl in *. now subst.
Qed.

Lemma yield_none text pc :
  (forall info, ~ qualifies re_search self text pc info) ->
  pattern_yield re_search self text pc = None.
Proof.
  intros H.
  destruct (pattern_yield re_search self text pc) as [info |] eqn:E;
    [| reflexivity].
  exfalso. apply (H info). now apply yield_qualifies.
Qed.

Lemma below_min_not_qualifying text pc :
  below_min_value re_search self text pc ->
  forall info, ~ qualifies re_search self text pc info.
Proof.
  intros (template & mo & s & p & Hpat & _ & Hs & Hg & Hp & Hle) info
         (template' & mo' & s' & Hpat' & _ & Hs' & Hg' & Hp' & Hle' & _).
  rewrite Hpat in Hpat'. injection Hpat' as <-.
  rewrite Hs in Hs'. injection Hs' as <-.
  rewrite Hg in Hg'. injection Hg' as <-.
  rewrite Hp in Hp'. injection Hp' as Hp'. rewrite <- Hp' in Hle'.
  congruence.
Qed.

Lemma extract_loop_skip text l rest :
  (forall q, In q l -> pattern_yield re_search self text q = None) ->
  result (extract_loop re_search self text (l ++ rest)) =
    result (extract_loop re_search self text rest) /\
  searched (trace (extract_loop re_search self text (l ++ rest))) =
    searched_patterns self l ++
    searched (trace (extract_loop re_search self text rest)).
Proof.
  induction l as [| q l IH]; intros Hl; [auto |].
  destruct (try_pattern_spec text q) as [Hr Ht].
  destruct IH as [IHr IHt]; [intros; apply Hl; now right |].
  rewrite (Hl q (or_introl eq_refl)) in Hr.
  simpl. rewrite result_bind, trace_bind, Hr, searched_app, Ht, IHt.
  split; [exact IHr |].
  unfold searched_patterns. simpl. rewrite app_nil_r, app_assoc. reflexivity.
Qed.

Lemma extract_loop_hit text pc rest info :
  pattern_yield re_search self text pc = Some info ->
  result (extract_loop re_search self text (pc :: rest)) = Ret (Some info) /\
  searched (trace (extract_loop re_search self text (pc :: rest))) =
    searched_patterns self [pc].
Proof.
  intros Hy. destruct (try_pattern_spec text pc) as [Hr Ht].
  rewrite Hy in Hr.
  simpl. rewrite result_bind, trace_bind, Hr, searched_app, Ht.
  simpl. rewrite app_nil_r. auto.
Qed.

Lemma extract_price_loop text :
  result (_extract_price re_search self text) =
    result (extract_loop re_search self text (price_patterns self)) /\
  searched (trace (_extract_price re_search self text)) =
    searched (trace (extract_loop re_search self text (price_patterns self))).
Proof.
  unfold _extract_price. destruct (price_patterns self); auto.
Qed.

Lemma extract_returns text : returns (_extract_price re_search self text).
Proof.
  unfold returns. rewrite (proj1 (extract_price_loop text)).
  induction (price_patterns self) as [| pc l IH]; simpl.
  - eexists; reflexivity.
  - rewrite result_bind, (proj1 (try_pattern_spec text pc)).
    destruct (pattern_yield re_search self text pc); [eexists; reflexivity | exact IH].
Qed.

(** C3. The price extractor returns the value and the currency of the
    first pattern, in configuration order, that qualifies: whose match
    parses to a value at or above that pattern's [min_value].  The engine
    is then called for the patterns up to that one and for no later
    pattern.  A pattern whose parsed value is below its [min_value] does
    not qualify and does not end the extraction: the patterns after it
    decide the result.  When no pattern qualifies no price is found. *)
Theorem first_qualifying_pattern_wins text :
  (forall l1 pc l2 info,
     price_patterns self = l1 ++ pc :: l2 ->
     (forall q, In q l1 -> forall i, ~ qualifies re_search self text q i) ->
     qualifies re_search self text pc info ->
     result (_extract_price re_search self text) = Ret (Some info) /\
     searched (trace (_extract_price re_search self text)) =
       searched_patterns self (l1 ++ [pc])) /\
  (forall pc rest,
     below_min_value re_search self text pc ->
     (forall i, ~ qualifies re_search self text pc i) /\
     result (extract_loop re_search self text (pc :: rest)) =
       result (extract_loop re_search self text rest)) /\
  ((forall q, In q (price_patterns self) ->
              forall i, ~ qualifies re_search self text q i) ->
   result (_extract_price re_search self text) = Ret None).
Proof.
  split; [| split].
  - intros l1 pc l2 info Hsplit Hl1 Hq.
    destruct (extract_price_loop text) as [Er Et]. rewrite Er, Et, Hsplit.
    destruct (extract_loop_skip text l1 (pc :: l2)) as [Sr St];
      [intros q Hin; apply yield_none; auto |].
    destruct (extract_loop_hit text pc l2 (proj2 (yield_qualifies _ _ _) Hq))
      as [Hr Ht].
    rewrite Sr, St, Hr, Ht. split; [reflexivity |].
    unfold searched_patterns. now rewrite flat_map_app.
  - intros pc rest Hb.
    pose proof (below_min_not_qualifying Hb) as Hn. split; [exact Hn |].
    apply (extract_loop_skip text [pc] rest).
    intros q [<- | []]. now apply yield_none.
  - intros Hall. rewrite (proj1 (extract_price_loop text)).
    destruct (extract_loop_skip text (price_patterns self) []) as [Sr _];
      [intros q Hin; apply yield_none; auto |].
    rewrite app_nil_r in Sr. rewrite Sr. reflexivity.
Qed.

End WithEngine.

(** The euro pattern finds 250, below its floor of 500; the dollar
    pattern, next in order, finds 300 and wins; the third pattern, which
    matches too, is never searched. *)
Lemma first_qualifying_pattern_wins_witness :
  result (_extract_price Samples.market_engine Samples.market
            Samples.market_message) =
  Ret (Some {| value := Finite 300; currency := lit "$" |}) /\
  searched (trace (_extract_price Samples.market_engine Samples.market
                     Samples.market_message)) =
  [Samples.number_regex ++ lit "\s*" ++ euro;
   lit "\$\s*" ++ Samples.number_regex].
Proof.
  refine (proj1 (first_qualifying_pattern_wins Samples.market_engine
                   Samples.market Samples.market_message)
            [Samples.euro_pattern] Samples.dollar_pattern_100
            [Samples.usd_pattern]
            {| value := Finite 300; currency := lit "$" |} eq_refl _ _).
  - intros q [<- | []] i Hq. apply yield_qualifies in Hq.
    vm_compute in Hq. discriminate.
  - apply yield_qualifies. vm_compute. reflexivity.
Defined.

End ExtractFacts.

(* ================================================================== *)
(** * The product matcher *)
(* ================================================================== *)

Module ProductFacts.

Import Py Re Eff Eff.Notations EffFacts Matcher Spec KeywordFacts ExtractFacts.

Section WithEngine.

Variable re_search : engine.
Variable self : ProductMatcher.

Lemma collect_result text kws :
  result (collect_keywords re_search self text kws) =
  Ret (filter (keyword_hit re_search self text) kws).
Proof.
  induction kws as [| k kws IH]; simpl; [reflexivity |].
  rewrite result_bind, match_keyword_result, result_bind, IH.
  reflexivity.
Qed.

Lemma excluded_result text kws :
  result (excluded re_search self text kws) =
  Ret (existsb (keyword_hit re_search self text) kws).
Proof.
  induction kws as [| k kws IH]; simpl; [reflexivity |].
  rewrite result_bind, match_keyword_result.
  destruct (keyword_hit re_search self text k); simpl; [reflexivity | exact IH].
Qed.

Lemma extract_result text :
  result (_extract_price re_search self text) = Ret (extracted re_search self text).
Proof.
  unfold extracted. destruct (extract_returns re_search self text) as [o ->].
  reflexivity.
Qed.

Lemma check_price_result message_text product :
  result (check_price re_search self message_text product) =
  Ret (price_view re_search self message_text product).
Proof.
  unfold check_price, price_view.
  destruct (truthy_range (price_range product)); [| reflexivity].
  rewrite result_bind, extract_result.
  destruct (extracted re_search self message_text) as [info |]; [| reflexivity].
  destruct (in_range _ (value info)); reflexivity.
Qed.

Lemma match_product_result message_text product :
  result (_match_product re_search self message_text product) =
  Ret (product_view re_search self message_text product).
Proof.
  unfold _match_product, product_view.
  rewrite result_bind, collect_result.
  destruct (filter _ (keywords product)) as [| k ks]; [reflexivity |].
  rewrite result_bind, excluded_result.
  destruct (existsb _ (exclude_keywords product)); [reflexivity |].
  rewrite result_bind, check_price_result.
  destruct (price_view re_search self message_text product) as [[pm cur] |];
    reflexivity.
Qed.

Lemma results_for_view message_text product :
  results_for re_search self message_text product =
  match product_view re_search self message_text product with
  | Some r => [r]
  | None => []
  end.
Proof. unfold results_for. now rewrite match_product_result. Qed.

Lemma match_loop_result message_text ps :
  result (match_loop re_search self message_text ps) =
  Ret (flat_map (results_for re_search self message_text) ps).
Proof.
  induction ps as [| p ps IH]; simpl; [reflexivity |].
  rewrite result_bind, match_product_result, result_bind, IH.
  rewrite results_for_view.
  destruct (product_view re_search self message_text p); reflexivity.
Qed.

Lemma match_message_result message_text :
  message_text <> [] ->
  result (match_message re_search self message_text) =
  Ret (flat_map (results_for re_search self message_text) (products self)).
Proof.
  intros Hne. unfold match_message.
  destruct message_text; [congruence | apply match_loop_result].
Qed.

(** C10. On the empty message [match_message] returns the empty list
    at once, for every catalogue and every setting: no call of the engine
    is made and nothing is logged, so no product is evaluated. *)
Theorem empty_message_matches_nothing :
  result (match_message re_search self []) = Ret [] /\
  trace (match_message re_search self []) = [].
Proof. split; reflexivity. Qed.

(** C5. When an exclusion keyword of a product matches the normalised
    message text, the product yields no match result, whichever inclusion
    keywords match: [_match_product] returns [None] and the list returned
    by [match_message] is the one the other products yield. *)
Theorem exclusion_overrides_inclusion message_text product exclude_keyword :
  In exclude_keyword (exclude_keywords product) ->
  matches re_search self message_text exclude_keyword = Ret true ->
  result (_match_product re_search self message_text product) = Ret None /\
  forall before after,
    message_text <> [] ->
    products self = before ++ product :: after ->
    result (match_message re_search self message_text) =
    Ret (flat_map (results_for re_search self message_text) (before ++ after)).
Proof.
  intros Hin Hm. unfold matches in Hm. rewrite match_keyword_result in Hm.
  injection Hm as Hm.
  assert (Hnone : product_view re_search self message_text product = None).
  { unfold product_view. cbv zeta.
    destruct (filter _ (keywords product)); [reflexivity |].
    replace (existsb _ (exclude_keywords product)) with true; [reflexivity |].
    symmetry. apply existsb_exists. now exists exclude_keyword. }
  split.
  - rewrite match_product_result, Hnone. reflexivity.
  - intros before after Hne Hps.
    rewrite (match_message_result Hne), Hps, !flat_map_app. simpl.
    rewrite results_for_view, Hnone. reflexivity.
Qed.

Lemma product_view_kept message_text product matched :
  let text := fold_case self (_normalize_text message_text) in
  result (collect_keywords re_search self text (keywords product)) = Ret matched ->
  matched <> [] ->
  result (excluded re_search self text (exclude_keywords product)) = Ret false ->
  product_view re_search self message_text product =
  match price_view re_search self message_text product with
  | Some (price_match, cur) => Some (result_with product matched price_match cur)
  | None => None
  end.
Proof.
  intros text Hc Hne He. subst text.
  rewrite collect_result in Hc. injection Hc as Hc.
  rewrite excluded_result in He. injection He as He.
  unfold product_view. cbv zeta. rewrite Hc, He.
  destruct matched; [congruence | reflexivity].
Qed.

(** C1, as the code has it.  For a product with a configured price range,
    when the extractor finds no price in the original message text the
    range check is skipped: the product still yields a match result, with
    price and currency absent, as soon as an inclusion keyword matches and
    no exclusion keyword does. *)
Theorem missing_price_skips_range_check message_text product matched :
  let text := fold_case self (_normalize_text message_text) in
  truthy_range (price_range product) = true ->
  result (_extract_price re_search self message_text) = Ret None ->
  result (collect_keywords re_search self text (keywords product)) = Ret matched ->
  matched <> [] ->
  result (excluded re_search self text (exclude_keywords product)) = Ret false ->
  result (_match_product re_search self message_text product) =
  Ret (Some (result_with product matched None None)).
Proof.
  intros text Hr Hx Hc Hne He.
  rewrite match_product_result, (product_view_kept _ _ Hc Hne He).
  unfold price_view. rewrite Hr.
  rewrite extract_result in Hx. injection Hx as ->. reflexivity.
Qed.

(** C6. For a product with a configured price range and an extracted
    price [p], the product qualifies exactly when [min <= p <= max], both
    bounds included, where [min] is 0 when absent and [max] is unbounded
    when absent.  A price equal to [min] or to [max] qualifies; a price
    one unit below [min] or one unit above [max] does not. *)
Theorem price_range_is_inclusive message_text product r info matched :
  let text := fold_case self (_normalize_text message_text) in
  price_range product = Some r ->
  truthy_range (Some r) = true ->
  result (_extract_price re_search self message_text) = Ret (Some info) ->
  result (collect_keywords re_search self text (keywords product)) = Ret matched ->
  matched <> [] ->
  result (excluded re_search self text (exclude_keywords product)) = Ret false ->
  let lo := get (min r) (Finite 0) in
  let hi := get (max r) (Inf false) in
  let p := value info in
  let outcome := result (_match_product re_search self message_text product) in
  let qualifies :=
    outcome = Ret (Some (result_with product matched (Some p) (Some (currency info)))) in
  let rejected := outcome = Ret None in
  (float_le lo p = true /\ float_le p hi = true -> qualifies) /\
  (~ (float_le lo p = true /\ float_le p hi = true) -> rejected) /\
  (max r = None -> float_le lo p = true -> qualifies) /\
  (forall a b q : Q,
     lo = Finite a -> hi = Finite b -> (a <= b)%Q -> p = Finite q ->
     ((q == a)%Q -> qualifies) /\ ((q == b)%Q -> qualifies) /\
     ((q == a - 1)%Q -> rejected) /\ ((q == b + 1)%Q -> rejected)).
Proof.
  intros text Hr Ht Hx Hc Hne He lo hi p outcome qualifies rejected.
  assert (Hout : outcome =
                 Ret (if float_le lo p && float_le p hi
                      then Some (result_with product matched (Some p)
                                   (Some (currency info)))
                      else None)).
  { subst outcome.
    rewrite match_product_result, (product_view_kept _ _ Hc Hne He).
    unfold price_view. rewrite Hr, Ht.
    rewrite extract_result in Hx. injection Hx as ->.
    unfold in_range. simpl get. fold lo hi p.
    destruct (float_le lo p && float_le p hi); reflexivity. }
  assert (Hyes : float_le lo p = true /\ float_le p hi = true -> qualifies).
  { intros [H1 H2]. unfold qualifies. now rewrite Hout, H1, H2. }
  assert (Hno : ~ (float_le lo p = true /\ float_le p hi = true) -> rejected).
  { intros H. unfold rejected. rewrite Hout.
    destruct (float_le lo p); destruct (float_le p hi); simpl; tauto. }
  split; [exact Hyes |]. split; [exact Hno |]. split.
  - intros Hmax Hlo. apply Hyes. split; [exact Hlo |].
    subst hi. rewrite Hmax. simpl.
    destruct p as [x | [|] |]; try reflexivity;
      destruct lo as [y | [|] |]; discriminate.
  - intros a b q Hlo Hhi Hab Hp. rewrite Hlo, Hhi, Hp in *. simpl in *.
    repeat split; intros Hq.
    + apply Hyes. rewrite !Qle_bool_iff. lra.
    + apply Hyes. rewrite !Qle_bool_iff. lra.
    + apply Hno. rewrite !Qle_bool_iff. lra.
    + apply Hno. rewrite !Qle_bool_iff. lra.
Qed.

End WithEngine.

(** A message without a price still matches the phone, whose price range
    is 100 to 500: the claim that such a product is skipped fails. *)
Lemma missing_price_still_matches :
  truthy_range (price_range Samples.phone) = true /\
  result (_extract_price Samples.shop_engine Samples.shop
            Samples.unpriced_message) = Ret None /\
  result (match_message Samples.shop_engine Samples.shop
            Samples.unpriced_message) =
  Ret [ {| product_name := lit "Phone";
           matched_keywords := [lit "phone"];
           price := None;
           res_currency := None;
           res_notify := true |} ].
Proof. vm_compute. repeat split. Qed.

Lemma missing_price_skips_range_check_witness :
  result (_match_product Samples.shop_engine Samples.shop
            Samples.unpriced_message Samples.phone) =
  Ret (Some (result_with Samples.phone [lit "phone"] None None)).
Proof.
  apply (@missing_price_skips_range_check Samples.shop_engine Samples.shop
           Samples.unpriced_message Samples.phone [lit "phone"]);
    try (vm_compute; reflexivity).
  discriminate.
Defined.

(** The phone offered for 250 dollars is within 100 to 500. *)
Lemma price_range_is_inclusive_witness :
  result (_match_product Samples.shop_engine Samples.shop
            Samples.priced_message Samples.phone) =
  Ret (Some (result_with Samples.phone [lit "phone"]
               (Some (Finite 250%Q)) (Some (lit "$")))).
Proof.
  refine (proj1 (@price_range_is_inclusive Samples.shop_engine Samples.shop
                   Samples.priced_message Samples.phone
                   {| min := Some (Finite 100%Q); max := Some (Finite 500%Q) |}
                   {| value := Finite 250%Q; currency := lit "$" |}
                   [lit "phone"] _ _ _ _ _ _) _);
    try (vm_compute; reflexivity); try discriminate.
  split; vm_compute; reflexivity.
Defined.

(** A message that names an exclusion keyword yields nothing. *)
Lemma exclusion_overrides_inclusion_witness :
  result (match_message Samples.shop_engine Samples.shop Samples.scam_message)
  = Ret [].
Proof.
  refine (proj2 (@exclusion_overrides_inclusion Samples.shop_engine Samples.shop
                   Samples.scam_message Samples.phone (lit "scam") _ _)
            [] [] _ _);
    try (vm_compute; reflexivity); try discriminate.
  simpl. auto.
Defined.

End ProductFacts.

(* ================================================================== *)
(** * Characters and case *)
(* ================================================================== *)

Module CharFacts.

Import Py Matcher Spec.
Local Open Scope N_scope.

Lemma in_of_nat_seq c lo n :
  N.of_nat lo <= c < N.of_nat (lo + n) -> In c (map N.of_nat (seq lo n)).
Proof.
  intros H. apply in_map_iff. exists (N.to_nat c). split; [lia |].
  apply in_seq. lia.
Qed.

Lemma modelled_listed c : modelled c = true -> In c modelled_chars.
Proof.
  unfold modelled, modelled_chars, between. intros H.
  rewrite !orb_true_iff, andb_true_iff, !N.leb_le, !N.eqb_eq in H.
  rewrite !in_app_iff.
  destruct H as [[[H | H] | H] | H].
  - left. apply in_of_nat_seq. simpl. lia.
  - right; left. subst. now left.
  - right; right; left. apply in_of_nat_seq. simpl. lia.
  - right; right; right. subst. now left.
Qed.

(** A decidable property of characters holds on every modelled character
    once it is checked on the list. *)
Lemma on_modelled (P : char -> bool) :
  forallb P modelled_chars = true ->
  forall c, modelled c = true -> P c = true.
Proof.
  intros H c Hc. rewrite forallb_forall in H. auto using modelled_listed.
Qed.

(** Two searches agree when the needles agree character by character with
    the way the haystacks are read. *)
Lemma startswith_read (f g : char -> char) t t' s :
  Forall2 (fun k k' => forall c, In c s -> (k =? f c) = (k' =? g c)) t t' ->
  startswith t (map f s) = startswith t' (map g s).
Proof.
  revert t' s. induction t as [| k t IH]; intros t' s H.
  - inversion H. reflexivity.
  - inversion H as [| ? k' ? t'' Hk Ht]; subst.
    destruct s as [| c s]; simpl; [reflexivity |].
    rewrite (Hk c (or_introl eq_refl)). f_equal.
    apply IH. eapply Forall2_impl; [| exact Ht].
    simpl. intros a b Hab x Hx. apply Hab. now right.
Qed.

Lemma contains_read (f g : char -> char) t t' s :
  Forall2 (fun k k' => forall c, In c s -> (k =? f c) = (k' =? g c)) t t' ->
  contains t (map f s) = contains t' (map g s).
Proof.
  induction s as [| c s IH]; intros H.
  - simpl. rewrite !orb_false_r. exact (startswith_read f g [] H).
  - change (contains t (map f (c :: s)))
      with (startswith t (map f (c :: s)) || contains t (map f s)).
    change (contains t' (map g (c :: s)))
      with (startswith t' (map g (c :: s)) || contains t' (map g s)).
    rewrite (startswith_read f g (c :: s) H). f_equal.
    apply IH. eapply Forall2_impl; [| exact H].
    simpl. intros a b Hab x Hx. apply Hab. now right.
Qed.

(** The needle [t] is found in [f s] exactly when [t'] is found in
    [g s], once this is checked character by character on the modelled
    characters. *)
Lemma contains_on_modelled (f g : char -> char) t t' s :
  forallb modelled s = true ->
  List.length t = List.length t' ->
  forallb (fun kk => forallb (fun c => Bool.eqb (fst kk =? f c) (snd kk =? g c))
                             modelled_chars) (combine t t') = true ->
  contains t (map f s) = contains t' (map g s).
Proof.
  intros Hs Hlen Hchk. apply contains_read.
  revert t' Hlen Hchk. induction t as [| k t IH]; intros [| k' t'] Hlen Hchk;
    try discriminate; constructor.
  - cbn [combine forallb] in Hchk. apply andb_true_iff in Hchk as [Hk _].
    intros c Hc. apply eqb_prop.
    apply (on_modelled _ Hk). rewrite forallb_forall in Hs. auto.
  - apply IH; [now injection Hlen |].
    cbn [combine forallb] in Hchk. now apply andb_true_iff in Hchk as [_ Ht].
Qed.

End CharFacts.

(* ================================================================== *)
(** * Currency detection *)
(* ================================================================== *)

Module CurrencyFacts.

Import Py Matcher Spec CharFacts.
Local Open Scope N_scope.

(** Each test of [_detect_currency] is the case-insensitive search for its
    token. *)
Lemma tests_are_case_insensitive span :
  forallb modelled span = true ->
  contains euro span = contains_ci euro span /\
  contains (lit "EUR") (upper span) = contains_ci (lit "EUR") span /\
  contains evro (lower span) = contains_ci evro span /\
  contains (lit "$") span = contains_ci (lit "$") span /\
  contains (lit "USD") (upper span) = contains_ci (lit "USD") span /\
  contains (lit "dollar") (lower span) = contains_ci (lit "dollar") span /\
  contains dollar_ru (lower span) = contains_ci dollar_ru span.
Proof.
  intros Hs. unfold contains_ci, lower, upper.
  repeat split;
    first
      [ reflexivity
      | apply contains_on_modelled; auto; vm_compute; reflexivity
      | rewrite <- (map_id span) at 1;
        apply contains_on_modelled; auto; vm_compute; reflexivity ].
Qed.

(** C9. On a matched span, currency detection tries the euro group (the
    euro sign, [EUR], the Russian word) before the dollar group (the
    dollar sign, [USD], [dollar], the Russian word), each token being
    searched without regard to case.  It returns the symbol of the first
    group with a token in the span and the empty string when there is
    none; a span with tokens of both groups yields the euro sign. *)
Theorem currency_is_first_group span :
  forallb modelled span = true ->
  _detect_currency span = first_group span /\
  (group_present euro_tokens span = true -> _detect_currency span = euro) /\
  (group_present euro_tokens span = false ->
   group_present dollar_tokens span = true -> _detect_currency span = lit "$") /\
  (group_present euro_tokens span = false ->
   group_present dollar_tokens span = false -> _detect_currency span = []).
Proof.
  intros Hs.
  destruct (tests_are_case_insensitive span Hs)
    as (E1 & E2 & E3 & D1 & D2 & D3 & D4).
  assert (Hd : _detect_currency span =
               if group_present euro_tokens span then euro
               else if group_present dollar_tokens span then lit "$" else []).
  { unfold _detect_currency, group_present, euro_tokens, dollar_tokens.
    cbn [existsb]. rewrite E1, E2, E3, D1, D2, D3, D4, !orb_false_r, !orb_assoc.
    reflexivity. }
  split; [| split; [| split]].
  - rewrite Hd. unfold first_group, currency_groups. cbn [find snd fst].
    destruct (group_present euro_tokens span); [reflexivity |].
    destruct (group_present dollar_tokens span); reflexivity.
  - intros H. now rewrite Hd, H.
  - intros H1 H2. now rewrite Hd, H1, H2.
  - intros H1 H2. now rewrite Hd, H1, H2.
Qed.

(** A span naming both currencies: the euro wins. *)
Lemma currency_is_first_group_witness :
  _detect_currency (lit "100 usd / 90 eur") = euro.
Proof.
  refine (proj1 (proj2 (@currency_is_first_group (lit "100 usd / 90 eur") _)) _);
    vm_compute; reflexivity.
Defined.

End CurrencyFacts.

(* ================================================================== *)
(** * Case-insensitive matching *)
(* ================================================================== *)

Module CaseFacts.

Import Py Re Eff EffFacts Matcher Spec CharFacts KeywordFacts.
Local Open Scope N_scope.

(** Folding after normalisation does not see a prior change of case,
    except on the look-alikes that exist in one case only. *)
Lemma fold_after_case (recase : char -> char) (odd : list char) (s : str) :
  forallb (fun c => existsb (N.eqb c) odd ||
                    (lower_char (table_get CYRILLIC_TO_LATIN (recase c) (recase c))
                     =? lower_char (table_get CYRILLIC_TO_LATIN c c)))
          modelled_chars = true ->
  forallb modelled s = true ->
  avoids odd s = true ->
  lower (_normalize_text (map recase s)) = lower (_normalize_text s).
Proof.
  intros Hchk Hs Ha. unfold lower, _normalize_text. rewrite !map_map.
  apply map_ext_in. intros c Hc.
  unfold avoids in Ha. rewrite forallb_forall in Hs, Ha.
  pose proof (on_modelled _ Hchk c (Hs c Hc)) as H.
  specialize (Ha c Hc). apply negb_true_iff in Ha.
  cbv beta in H. rewrite Ha in H. now apply N.eqb_eq in H.
Qed.

Section WithEngine.

Variable re_search : engine.
Variable self : ProductMatcher.

Lemma matches_depends_on_folds t k t' k' :
  fold_case self (_normalize_text t') = fold_case self (_normalize_text t) ->
  fold_case self (_normalize_text k') = fold_case self (_normalize_text k) ->
  matches re_search self t' k' = matches re_search self t k.
Proof.
  intros Ht Hk. unfold matches. rewrite !match_keyword_result.
  unfold keyword_hit. now rewrite Ht, Hk.
Qed.

(** C4, as the code has it.  When [case_sensitive] is false, matching a
    keyword against a text gives the same answer after both are put in
    lower case, provided neither contains one of the capital look-alikes
    that have no small look-alike (Cyrillic Ve, Ka, Em, En, Te); and the
    same answer after both are put in upper case, provided neither
    contains the small form of one of these letters. *)
Theorem matching_ignores_uniform_case t k :
  case_sensitive self = false ->
  forallb modelled (t ++ k) = true ->
  (avoids capital_only (t ++ k) = true ->
   matches re_search self (lower t) (lower k) = matches re_search self t k) /\
  (avoids small_of_capital_only (t ++ k) = true ->
   matches re_search self (upper t) (upper k) = matches re_search self t k).
Proof.
  intros Hcs Hm. rewrite forallb_app in Hm. apply andb_true_iff in Hm as [Ht Hk].
  unfold avoids. rewrite !forallb_app, !andb_true_iff.
  unfold fold_case, matches.
  split; intros [At Ak]; apply matches_depends_on_folds;
    unfold fold_case; rewrite Hcs.
  - apply fold_after_case with (odd := capital_only); auto.
  - apply fold_after_case with (odd := capital_only); auto.
  - apply fold_after_case with (odd := small_of_capital_only); auto.
  - apply fold_after_case with (odd := small_of_capital_only); auto.
Qed.

End WithEngine.

(** A capital Cyrillic Ve reads as [b] and matches the keyword [b]; in
    lower case it is a small Ve, which is no look-alike, and the match is
    lost.  The other way round, a small Ve does not match [b] and its
    capital does. *)
Lemma uniform_case_changes_matching :
  case_sensitive Samples.defaults = false /\
  matches Samples.letter_engine Samples.defaults [0x412] (lit "b") = Ret true /\
  matches Samples.letter_engine Samples.defaults
    (lower [0x412]) (lower (lit "b")) = Ret false /\
  matches Samples.letter_engine Samples.defaults [0x432] (lit "b") = Ret false /\
  matches Samples.letter_engine Samples.defaults
    (upper [0x432]) (upper (lit "b")) = Ret true.
Proof. vm_compute. repeat split. Qed.

Lemma matching_ignores_uniform_case_witness :
  matches Samples.iphone_engine Samples.defaults
    (lower (lit "iPhone 12")) (lower (lit "PHONE")) =
  matches Samples.iphone_engine Samples.defaults (lit "iPhone 12") (lit "PHONE").
Proof.
  refine (proj1 (@matching_ignores_uniform_case Samples.iphone_engine
                   Samples.defaults (lit "iPhone 12") (lit "PHONE") _ _) _);
    vm_compute; reflexivity.
Defined.

End CaseFacts.

(* ================================================================== *)
(** * The price parser *)
(* ================================================================== *)

Module ParseFacts.

Import Py Eff EffFacts Matcher Spec ExtractFacts.
Local Open Scope N_scope.

(** [rfind] yields its default or an index that holds the character. *)
Lemma rfind_from_spec c s : forall i acc,
  let r := rfind_from c s i acc in
  r = acc \/
  ((i <= r < i + len s)%Z /\ nth_error s (Z.to_nat (r - i)) = Some c).
Proof.
  unfold len. induction s as [| x s IH]; intros i acc; [now left |].
  cbn [rfind_from]. cbv zeta.
  destruct (IH (i + 1)%Z (if x =? c then i else acc)) as [E | [Hr Hn]].
  - rewrite E. destruct (N.eqb_spec x c) as [-> | _]; [right | now left].
    cbn [List.length]. split; [lia |].
    now replace (Z.to_nat (i - i)) with 0%nat by lia.
  - right. cbn [List.length]. split; [lia |].
    replace (Z.to_nat (rfind_from c s (i + 1) (if x =? c then i else acc) - i))
      with (S (Z.to_nat (rfind_from c s (i + 1) (if x =? c then i else acc)
                         - (i + 1)))) by lia.
    exact Hn.
Qed.

Lemma rfind_spec c s :
  rfind c s = (-1)%Z \/
  ((0 <= rfind c s < len s)%Z /\ nth_error s (Z.to_nat (rfind c s)) = Some c).
Proof.
  unfold rfind. destruct (rfind_from_spec c s 0 (-1)) as [E | [Hr Hn]];
    [now left | right].
  split; [lia |]. now rewrite Z.sub_0_r in Hn.
Qed.

(** The last dot and the last comma sit at different places. *)
Lemma rfind_apart s :
  rfind dot s = rfind comma s -> rfind dot s = (-1)%Z.
Proof.
  intros E.
  destruct (rfind_spec dot s) as [H | [_ Hd]]; [exact H |].
  destruct (rfind_spec comma s) as [H | [_ Hc]]; [congruence |].
  rewrite E in Hd. rewrite Hd in Hc. discriminate.
Qed.

Lemma slice_from_one (x : char) (s : str) : slice_from 1 (x :: s) = s.
Proof.
  unfold slice_from, clamp, len. cbn [Z.ltb Z.compare List.length].
  replace (Z.min 1 (Z.of_nat (S (List.length s)))) with 1%Z by lia.
  reflexivity.
Qed.

(** A separator that one or two digits follow to the end is not the
    first character, the lone fractions apart. *)
Lemma rfind_not_first c s :
  (c =? dot) || (c =? comma) = true ->
  lone_fraction s = false ->
  one_or_two_digits (slice_from (rfind c s + 1) s) = true ->
  rfind c s <> 0%Z.
Proof.
  intros Hc Hl Hd E. rewrite E in Hd.
  destruct (rfind_spec c s) as [H | [_ Hn]]; [lia |].
  rewrite E in Hn. destruct s as [| x s]; [discriminate |].
  cbn [Z.to_nat nth_error] in Hn. injection Hn as ->.
  change (0 + 1)%Z with 1%Z in Hd. rewrite slice_from_one in Hd.
  cbn [lone_fraction] in Hl. rewrite Hc, Hd in Hl. discriminate.
Qed.

Lemma decimal_tail_digits s : decimal_tail s = one_or_two_digits s.
Proof.
  unfold decimal_tail, len.
  destruct s as [| a [| b [| c s]]]; cbn [List.length one_or_two_digits isdigit forallb].
  - reflexivity.
  - change (Z.of_nat 1) with 1%Z. simpl andb. now rewrite andb_true_r.
  - change (Z.of_nat 2) with 2%Z. simpl andb. now rewrite !andb_true_r.
  - replace (Z.of_nat (S (S (S (List.length s)))) <=? 2)%Z with false;
      [now rewrite andb_false_r |].
    symmetry. apply Z.leb_gt. lia.
Qed.

Lemma In_firstn_aux (c : char) n s : In c (firstn n s) -> In c s.
Proof.
  revert n. induction s as [| x s IH]; intros [| n]; simpl; try tauto.
  intros [H | H]; eauto.
Qed.

Lemma plain_spaces_firstn n s :
  plain_spaces s = true -> plain_spaces (firstn n s) = true.
Proof.
  unfold plain_spaces. rewrite !forallb_forall.
  intros H c Hc. apply H. eapply In_firstn_aux; eauto.
Qed.

(** Deleting dots, commas, spaces and no-break spaces deletes every
    separator and every whitespace character when there is no other
    whitespace. *)
Lemma remove_separators_all s :
  plain_spaces s = true -> remove_separators s = strip_all s.
Proof.
  unfold plain_spaces, remove_separators, remove_char, strip_all.
  induction s as [| a s IH]; [reflexivity |].
  cbn [forallb]. intros H. apply andb_true_iff in H as [Ha Hs].
  specialize (IH Hs). cbn [filter].
  destruct (N.eqb_spec a comma) as [-> | Hc]; [simpl; exact IH |].
  destruct (N.eqb_spec a dot) as [-> | Hd]; [simpl; exact IH |].
  destruct (N.eqb_spec a space) as [-> | Hsp]; [simpl; exact IH |].
  destruct (N.eqb_spec a nbsp) as [-> | Hn]; [simpl; exact IH |].
  apply N.eqb_neq in Hc, Hd, Hsp, Hn.
  rewrite !orb_false_r in Ha. apply negb_true_iff in Ha. rewrite Ha.
  cbn [negb orb filter]. rewrite Hd. cbn [negb filter]. rewrite Hsp.
  cbn [negb filter]. rewrite Hn. cbn [negb]. now rewrite IH.
Qed.

Lemma rfind_lower_bound c s : (-1 <= rfind c s)%Z.
Proof. destruct (rfind_spec c s) as [-> | [H _]]; lia. Qed.

(** The string handed to [float] is the one the rule builds. *)
Lemma join_parts_rule t :
  plain_spaces t = true ->
  lone_fraction t = false ->
  join_parts t =
  let later := Z.max (rfind dot t) (rfind comma t) in
  if (0 <=? later)%Z && one_or_two_digits (slice_from (later + 1) t)
  then strip_all (slice_to later t) ++ [dot] ++ slice_from (later + 1) t
  else strip_all t.
Proof.
  intros Hp Hl. unfold join_parts, find_decimal. cbv zeta.
  pose proof (rfind_lower_bound dot t) as Bd.
  pose proof (rfind_lower_bound comma t) as Bc.
  pose proof (@rfind_not_first dot t eq_refl Hl) as Nd.
  pose proof (@rfind_not_first comma t eq_refl Hl) as Nc.
  pose proof (rfind_apart t) as Ha.
  rewrite !Z.gtb_ltb, !decimal_tail_digits.
  destruct (Z.ltb_spec (rfind comma t) (rfind dot t)) as [Hlt | Hge].
  - rewrite Z.max_l by lia.
    replace (0 <=? rfind dot t)%Z with true by (symmetry; apply Z.leb_le; lia).
    cbn [andb].
    destruct (one_or_two_digits (slice_from (rfind dot t + 1) t)).
    + specialize (Nd eq_refl). rewrite Z.gtb_ltb.
      replace (0 <? rfind dot t)%Z with true by (symmetry; apply Z.ltb_lt; lia).
      unfold slice_to.
      now rewrite (@remove_separators_all _ (@plain_spaces_firstn _ _ Hp)).
    + now apply remove_separators_all.
  - destruct (Z.ltb_spec (rfind dot t) (rfind comma t)) as [Hlt | Hge'].
    + rewrite Z.max_r by lia.
      replace (0 <=? rfind comma t)%Z with true by (symmetry; apply Z.leb_le; lia).
      cbn [andb].
      destruct (one_or_two_digits (slice_from (rfind comma t + 1) t)).
      * specialize (Nc eq_refl). rewrite Z.gtb_ltb.
        replace (0 <? rfind comma t)%Z with true by (symmetry; apply Z.ltb_lt; lia).
        unfold slice_to.
        now rewrite (@remove_separators_all _ (@plain_spaces_firstn _ _ Hp)).
      * now apply remove_separators_all.
    + assert (E : rfind dot t = rfind comma t) by lia.
      specialize (Ha E). rewrite <- E, Ha. cbn [Z.max Z.leb Z.compare andb].
      now apply remove_separators_all.
Qed.

(** C2, as the code has it.  On a raw numeric substring over the modelled
    characters (ASCII, the no-break space, the Cyrillic letters and the
    euro sign) that holds no whitespace other than spaces and no-break
    spaces, the parser applies the rightmost-separator rule: of the last
    dot and the last comma, the later one is the decimal separator
    exactly when one or two digits follow it to the end of the string;
    otherwise every separator and space is removed and the digits are
    read as a whole number.  In particular [1,234.56], [1.234,56] and
    [1234,56] parse to 1234.56 and [1 234] parses to 1234.  A separator
    followed by one or two digits and nothing else, as [.5], is left
    out. *)
Theorem parser_follows_rightmost_separator :
  (forall raw,
     forallb modelled raw = true ->
     plain_spaces (strip raw) = true ->
     lone_fraction (strip raw) = false ->
     result (_parse_price_string (Some raw)) = Ret (rule_parse raw)) /\
  result (_parse_price_string (Some (lit "1,234.56"))) = Ret (Some (Finite 1234.56)) /\
  result (_parse_price_string (Some (lit "1.234,56"))) = Ret (Some (Finite 1234.56)) /\
  result (_parse_price_string (Some (lit "1234,56"))) = Ret (Some (Finite 1234.56)) /\
  result (_parse_price_string (Some (lit "1 234"))) = Ret (Some (Finite 1234)).
Proof.
  split.
  - intros raw _ Hp Hl. rewrite parse_result. f_equal.
    rewrite (@join_parts_rule _ Hp Hl). unfold rule_parse. cbv zeta.
    destruct ((0 <=? _)%Z && _); reflexivity.
  - repeat split; vm_compute; reflexivity.
Qed.

(** A substring with thousands and a one-digit fraction, and two that
    begin with a separator that is not the later one, or that no one or
    two digits follow: they follow the rule as well. *)
Lemma parser_follows_rightmost_separator_witness :
  result (_parse_price_string (Some (lit "12 345,6"))) = Ret (Some (Finite 12345.6)) /\
  result (_parse_price_string (Some (lit ",123.45"))) = Ret (Some (Finite 123.45)) /\
  result (_parse_price_string (Some (lit ".123"))) = Ret (Some (Finite 123)).
Proof.
  split; [| split];
    (refine (eq_trans (proj1 parser_follows_rightmost_separator _ _ _ _) _);
     vm_compute; reflexivity).
Defined.

(** A tab between the digit groups, which the default numeric sub-pattern
    lets through, is a whitespace character the parser does not remove:
    no value results, where the rule gives 1234. *)
Lemma parser_departs_from_rule :
  result (_parse_price_string (Some (lit "1" ++ [9] ++ lit "234"))) = Ret None /\
  rule_parse (lit "1" ++ [9] ++ lit "234") = Some (Finite 1234).
Proof. vm_compute. repeat split. Qed.

(** The case left out of C2.  The test [decimal_pos > 0] takes a
    separator at index 0 for no separator at all, against the comment
    above it ("if there are 1-2 digits after the last separator, it's a
    decimal"): [.5] is read as 5, where the rule gives 0.5. *)
Lemma lone_fraction_loses_its_separator :
  lone_fraction (strip (lit ".5")) = true /\
  result (_parse_price_string (Some (lit ".5"))) = Ret (Some (Finite 5)) /\
  rule_parse (lit ".5") = Some (Finite 0.5).
Proof. vm_compute. repeat split. Qed.

End ParseFacts.

Unset Implicit Arguments.

(* ================================================================== *)
(** * Further properties of the matcher *)
(* ================================================================== *)

Module RaiseFacts.

Import Py Re Eff Eff.Notations EffFacts EscapeFacts Matcher Spec MoreSpec.
Import KeywordFacts ExtractFacts.

Lemma escapes_app_l re e t1 t2 : escapes re e t1 -> escapes re e (t1 ++ t2).
Proof.
  intros [i [p [t [Hin H]]]]. exists i, p, t.
  split; [apply in_or_app; now left | exact H].
Qed.

Lemma escapes_app_r re e t1 t2 : escapes re e t2 -> escapes re e (t1 ++ t2).
Proof.
  intros [i [p [t [Hin H]]]]. exists i, p, t.
  split; [apply in_or_app; now right | exact H].
Qed.

(** An exception leaves a sequence of two steps when it leaves one of
    them. *)
Lemma escapes_bind {A B} re (m : M A) (k : A -> M B) e :
  (result m = Raise e -> escapes re e (trace m)) ->
  (forall a, result (k a) = Raise e -> escapes re e (trace (k a))) ->
  result (bind m k) = Raise e -> escapes re e (trace (bind m k)).
Proof.
  intros Hm Hk. rewrite result_bind, trace_bind.
  destruct (result m) as [a | e'].
  - intros H. apply escapes_app_r. now apply Hk.
  - intros H. injection H as ->. rewrite app_nil_r. now apply Hm.
Qed.

Section WithSearch.

Variable re_search : search_fn.
Variable self : ProductMatcher.

Lemma match_keyword_escapes text keyword e :
  result (_match_keyword re_search self text keyword) = Raise e ->
  escapes re_search e (trace (_match_keyword re_search self text keyword)).
Proof.
  destruct (regex_enabled self) eqn:Hre.
  - rewrite (@match_keyword_run re_search self text keyword Hre). cbv zeta.
    destruct (re_search false _ text) as [[] | m] eqn:E;
      cbn [result trace fst snd]; intros H; try discriminate H;
      injection H as <-;
      (eexists false, _, text;
       split; [left; reflexivity | split; [exact E | reflexivity]]).
  - unfold _match_keyword. rewrite Hre, search_escaped_word_eq.
    destruct (whole_word self); cbn; discriminate.
Qed.

Lemma collect_escapes text kws e :
  result (collect_keywords re_search self text kws) = Raise e ->
  escapes re_search e (trace (collect_keywords re_search self text kws)).
Proof.
  induction kws as [| k kws IH]; cbn [collect_keywords]; [(cbn; discriminate) |].
  apply escapes_bind; [apply match_keyword_escapes | intros b].
  apply escapes_bind; [exact IH | intros l; cbn; discriminate].
Qed.

Lemma excluded_escapes text kws e :
  result (excluded re_search self text kws) = Raise e ->
  escapes re_search e (trace (excluded re_search self text kws)).
Proof.
  induction kws as [| k kws IH]; cbn [excluded]; [(cbn; discriminate) |].
  apply escapes_bind; [apply match_keyword_escapes | intros [|]];
    [(cbn; discriminate) | exact IH].
Qed.

Lemma try_pattern_escapes text pc e :
  result (try_pattern re_search self text pc) = Raise e ->
  escapes re_search e (trace (try_pattern re_search self text pc)).
Proof.
  unfold try_pattern, search, group1.
  destruct (negb (truthy_str (pattern pc))); [cbn; discriminate |].
  set (pat := replace _ _ _).
  destruct (re_search true pat text) as [e0 | [mo |]] eqn:E; simpl.
  - destruct e0; simpl; intros H; try discriminate H; injection H as <-;
      (exists true, pat, text;
       split; [left; reflexivity | split; [exact E | reflexivity]]).
  - destruct (groups mo) as [| g gs]; simpl; [discriminate |].
    pose proof (parse_result g) as Hr.
    destruct (_parse_price_string g) as [tp [v | e']]; simpl in *;
      [| discriminate Hr].
    destruct v as [p |]; [destruct (float_ge p _) |]; simpl; discriminate.
  - discriminate.
Qed.

Lemma extract_loop_escapes text patterns e :
  result (extract_loop re_search self text patterns) = Raise e ->
  escapes re_search e (trace (extract_loop re_search self text patterns)).
Proof.
  induction patterns as [| pc rest IH]; cbn [extract_loop]; [(cbn; discriminate) |].
  apply escapes_bind; [apply try_pattern_escapes | intros [info |]];
    [(cbn; discriminate) | exact IH].
Qed.

Lemma extract_escapes text e :
  result (_extract_price re_search self text) = Raise e ->
  escapes re_search e (trace (_extract_price re_search self text)).
Proof.
  unfold _extract_price. destruct (price_patterns self); [(cbn; discriminate) |].
  apply extract_loop_escapes.
Qed.

Lemma check_price_escapes message_text product e :
  result (check_price re_search self message_text product) = Raise e ->
  escapes re_search e (trace (check_price re_search self message_text product)).
Proof.
  unfold check_price. destruct (truthy_range _); [| (cbn; discriminate)].
  apply escapes_bind; [apply extract_escapes | intros [info |]];
    [| (cbn; discriminate)].
  destruct (negb _); cbn; discriminate.
Qed.

Lemma match_product_escapes message_text product e :
  result (_match_product re_search self message_text product) = Raise e ->
  escapes re_search e (trace (_match_product re_search self message_text product)).
Proof.
  unfold _match_product. cbv zeta.
  apply escapes_bind; [apply collect_escapes | intros [| k matched]];
    [(cbn; discriminate) |].
  apply escapes_bind; [apply excluded_escapes | intros [|]]; [(cbn; discriminate) |].
  apply escapes_bind; [apply check_price_escapes | intros [[pm cur] |]];
    (cbn; discriminate).
Qed.

Lemma match_loop_escapes message_text ps e :
  result (match_loop re_search self message_text ps) = Raise e ->
  escapes re_search e (trace (match_loop re_search self message_text ps)).
Proof.
  induction ps as [| p ps IH]; cbn [match_loop]; [(cbn; discriminate) |].
  apply escapes_bind; [apply match_product_escapes | intros mi].
  apply escapes_bind; [exact IH | intros l; cbn; discriminate].
Qed.

Lemma match_message_escapes message_text e :
  result (match_message re_search self message_text) = Raise e ->
  escapes re_search e (trace (match_message re_search self message_text)).
Proof.
  unfold match_message. destruct message_text; [(cbn; discriminate) |].
  apply match_loop_escapes.
Qed.

(** When every exception a search raises is taken by the handler around
    it, a run returns. *)
Lemma tame_returns {A} (m : M A) :
  (forall e, result m = Raise e -> escapes re_search e (trace m)) ->
  (forall i p t e, re_search i p t = Raised e -> caught i e = true) ->
  returns m.
Proof.
  intros Hm Htame. unfold returns.
  destruct (result m) as [a | e]; [now exists a |].
  destruct (Hm e eq_refl) as [i [p [t [_ [Hr Hc]]]]].
    rewrite (Htame _ _ _ _ Hr) in Hc. discriminate.
Qed.

End WithSearch.

End RaiseFacts.

Module CatalogueFacts.

Import Py Re Eff Eff.Notations EffFacts Matcher Spec MoreSpec.
Import KeywordFacts ExtractFacts ProductFacts RaiseFacts.

Section WithSearch.

Variable re_search : search_fn.
Variable self : ProductMatcher.

Lemma match_product_with_products ps message_text product :
  _match_product re_search (with_products self ps) message_text product =
  _match_product re_search self message_text product.
Proof. destruct self. reflexivity. Qed.

Lemma match_loop_with_products qs message_text ps :
  match_loop re_search (with_products self qs) message_text ps =
  match_loop re_search self message_text ps.
Proof.
  induction ps as [| p ps IH]; [reflexivity |].
  cbn [match_loop]. now rewrite match_product_with_products, IH.
Qed.

Lemma match_message_with_products message_text ps :
  message_text <> [] ->
  match_message re_search (with_products self ps) message_text =
  match_loop re_search self message_text ps.
Proof.
  intros Hne. unfold match_message.
  destruct message_text; [contradiction |].
  cbn [products with_products]. apply match_loop_with_products.
Qed.

(** The loop over two catalogues put end to end. *)
Lemma match_loop_app message_text ps1 ps2 :
  result (match_loop re_search self message_text (ps1 ++ ps2)) =
  match result (match_loop re_search self message_text ps1) with
  | Ret r1 =>
      match result (match_loop re_search self message_text ps2) with
      | Ret r2 => Ret (r1 ++ r2)
      | Raise e => Raise e
      end
  | Raise e => Raise e
  end.
Proof.
  induction ps1 as [| p ps1 IH]; cbn [app match_loop].
  - cbn. now destruct (result (match_loop _ _ _ ps2)).
  - rewrite !result_bind.
    destruct (result (_match_product re_search self message_text p))
      as [mi | e]; [| reflexivity].
    rewrite !result_bind, IH.
    destruct (result (match_loop _ _ _ ps1)) as [r1 | e]; [| reflexivity].
    destruct (result (match_loop _ _ _ ps2)) as [r2 | e]; [| reflexivity].
    now destruct mi.
Qed.

Lemma match_loop_own message_text ps r :
  result (match_loop re_search self message_text ps) = Ret r ->
  r = flat_map (own_results re_search self message_text) ps.
Proof.
  revert r. induction ps as [| p ps IH]; intros r; cbn [match_loop flat_map].
  - intros H. now injection H as <-.
  - rewrite result_bind. unfold own_results at 1.
    destruct (result (_match_product re_search self message_text p))
      as [mi | e]; [| discriminate].
    rewrite result_bind.
    destruct (result (match_loop _ _ _ ps)) as [l | e]; [| discriminate].
    intros H. injection H as <-. rewrite <- (IH l eq_refl).
    now destruct mi.
Qed.

Lemma own_results_short message_text ps :
  (List.length (flat_map (own_results re_search self message_text) ps)
   <= List.length ps)%nat.
Proof.
  induction ps as [| p ps IH]; [apply le_n |].
  cbn [flat_map List.length]. rewrite length_app.
  assert (List.length (own_results re_search self message_text p) <= 1)%nat.
  { unfold own_results. destruct (result _) as [[r |] | e]; cbn; auto. }
  lia.
Qed.

(** X1. On a non-empty message [match_message] returns, in catalogue
    order, what each product yields on its own, at most one result per
    product: the results over two catalogues put end to end are the
    results over the first followed by those over the second.  The only
    exceptions that leave it are those a call of [re.search] raised and
    the handler around that call does not take; when the searches raise
    nothing else, it returns.  (The fields of the catalogue have the
    types the code expects.) *)
Theorem match_message_by_product message_text ps1 ps2 :
  message_text <> [] ->
  let run ps := match_message re_search (with_products self ps) message_text in
  (forall r1 r2,
     result (run ps1) = Ret r1 -> result (run ps2) = Ret r2 ->
     result (run (ps1 ++ ps2)) = Ret (r1 ++ r2)) /\
  (forall r,
     result (run (ps1 ++ ps2)) = Ret r ->
     exists r1 r2,
       result (run ps1) = Ret r1 /\ result (run ps2) = Ret r2 /\ r = r1 ++ r2) /\
  (forall r1,
     result (run ps1) = Ret r1 ->
     r1 = flat_map (own_results re_search self message_text) ps1 /\
     (List.length r1 <= List.length ps1)%nat) /\
  (forall e,
     result (run ps1) = Raise e -> escapes re_search e (trace (run ps1))) /\
  ((forall i p t e, re_search i p t = Raised e -> caught i e = true) ->
   returns (run ps1)).
Proof.
  intros Hne. cbv beta zeta.
  rewrite !(match_message_with_products _ _ Hne), match_loop_app.
  split; [| split; [| split; [| split]]].
  - intros r1 r2 -> ->. reflexivity.
  - intros r.
    destruct (result (match_loop _ _ _ ps1)) as [r1 | e]; [| discriminate].
    destruct (result (match_loop _ _ _ ps2)) as [r2 | e]; [| discriminate].
    intros H. injection H as <-. now exists r1, r2.
  - intros r1 H. rewrite (match_loop_own _ _ _ H).
    split; [reflexivity | apply own_results_short].
  - intros e. apply match_loop_escapes.
  - apply tame_returns. intros e. apply match_loop_escapes.
Qed.

End WithSearch.

End CatalogueFacts.

Module StepFacts.

Import Py Re Eff Eff.Notations EffFacts Matcher Spec MoreSpec.
Import KeywordFacts ExtractFacts ProductFacts.

Lemma forall_trace_bind {A B} (P : event -> Prop) (m : M A) (k : A -> M B) :
  Forall P (trace m) ->
  (forall a, result m = Ret a -> Forall P (trace (k a))) ->
  Forall P (trace (bind m k)).
Proof.
  intros Hm Hk. rewrite trace_bind. apply Forall_app. split; [exact Hm |].
  destruct (result m) as [a | e]; [now apply Hk | constructor].
Qed.

Lemma forall_trace_try {A} (P : event -> Prop) (m : M A) hs (h : exn -> M A) :
  Forall P (trace m) ->
  (forall e, Forall P (trace (h e))) ->
  Forall P (trace (try_except m hs h)).
Proof.
  intros Hm Hh. rewrite trace_try. apply Forall_app. split; [exact Hm |].
  destruct (result m) as [a | e]; [constructor |].
  destruct (existsb (exn_eqb e) hs); [apply Hh | constructor].
Qed.

Section WithEngine.

Variable re_search : engine.
Variable self : ProductMatcher.


(** X3. The steps of a product stop at the first one that fails.  When no
    inclusion keyword matches, the product is given up after the keyword
    pass: no exclusion keyword is tried and no price is looked for.  When
    an exclusion keyword matches, the product is given up after the
    exclusion pass and no price is looked for. *)
Theorem product_steps_stop_early message_text product :
  let text := fold_case self (_normalize_text message_text) in
  let keyword_pass := collect_keywords re_search self text (keywords product) in
  let exclusion_pass := excluded re_search self text (exclude_keywords product) in
  let run := _match_product re_search self message_text product in
  (result keyword_pass = Ret [] ->
   result run = Ret None /\ trace run = trace keyword_pass) /\
  (result exclusion_pass = Ret true ->
   result run = Ret None /\
   (result keyword_pass = Ret [] \/
    trace run = trace keyword_pass ++ trace exclusion_pass)).
Proof.
  cbv zeta. unfold _match_product. split.
  - intros H. rewrite result_bind, trace_bind, H. simpl.
    now rewrite app_nil_r.
  - intros H. rewrite result_bind, trace_bind.
    destruct (result (collect_keywords _ _ _ (keywords product)))
      as [[| k ks] | e] eqn:Hc.
    + simpl. auto.
    + rewrite result_bind, trace_bind, H. simpl. rewrite app_nil_r. auto.
    + rewrite collect_result in Hc. discriminate.
Qed.

End WithEngine.

End StepFacts.

Module CallFacts.

Import Py Re Eff Eff.Notations EffFacts Matcher Spec MoreSpec.
Import KeywordFacts ExtractFacts ProductFacts StepFacts.

Section WithEngine.

Variable re_search : engine.
Variable self : ProductMatcher.

Lemma keyword_calls text keyword :
  Forall (keyword_call text) (trace (_match_keyword re_search self text keyword)).
Proof.
  unfold _match_keyword, search, lift.
  rewrite EscapeFacts.search_escaped_word_eq.
  destruct (regex_enabled self); simpl.
  - destruct (re_search false _ text); simpl;
      destruct (whole_word self); simpl; repeat constructor.
  - destruct (whole_word self); simpl; repeat constructor.
Qed.

Lemma collect_calls text kws :
  Forall (keyword_call text) (trace (collect_keywords re_search self text kws)).
Proof.
  induction kws as [| k kws IH]; simpl; [constructor |].
  apply forall_trace_bind; [apply keyword_calls | intros b _].
  apply forall_trace_bind; [exact IH | intros l _; constructor].
Qed.

Lemma excluded_calls text kws :
  Forall (keyword_call text) (trace (excluded re_search self text kws)).
Proof.
  induction kws as [| k kws IH]; simpl; [constructor |].
  apply forall_trace_bind; [apply keyword_calls | intros [|] _];
    [repeat constructor | exact IH].
Qed.

Lemma parse_calls (P : event -> Prop) price_str :
  (forall l m, P (Log l m)) ->
  Forall P (trace (_parse_price_string price_str)).
Proof.
  intros HP. unfold _parse_price_string. destruct price_str as [s |]; simpl.
  - destruct (float_of_str (join_parts (strip s))); repeat constructor; auto.
  - repeat constructor; auto.
Qed.

Lemma try_pattern_calls text pc :
  Forall (price_call text) (trace (try_pattern re_search self text pc)).
Proof.
  unfold try_pattern.
  destruct (negb (truthy_str (pattern pc))); [constructor |].
  apply forall_trace_try; [| intros; repeat constructor].
  apply forall_trace_bind; [unfold search; repeat constructor |].
  intros [mo |] _; [| constructor].
  apply forall_trace_bind;
    [unfold group1; destruct (groups mo); constructor |].
  intros g _.
  apply forall_trace_bind; [apply parse_calls; intros; exact I |].
  intros [p |] _; [| constructor].
  destruct (float_ge p _); repeat constructor.
Qed.

Lemma extract_calls text :
  Forall (price_call text) (trace (_extract_price re_search self text)).
Proof.
  unfold _extract_price.
  assert (H : forall l, Forall (price_call text)
                          (trace (extract_loop re_search self text l))).
  { induction l as [| pc l IH]; simpl; [repeat constructor |].
    apply forall_trace_bind; [apply try_pattern_calls |].
    intros [i |] _; [constructor | exact IH]. }
  destruct (price_patterns self); [repeat constructor | apply H].
Qed.

Lemma check_price_calls message_text product :
  Forall (fun e => price_call message_text e /\
                   (truthy_range (price_range product) = false -> no_call e))
         (trace (check_price re_search self message_text product)).
Proof.
  unfold check_price.
  destruct (truthy_range (price_range product)); [| constructor].
  apply forall_trace_bind.
  - eapply Forall_impl; [| apply extract_calls]. intros e He.
    split; [exact He | discriminate].
  - intros [info |] _; [| constructor].
    destruct (negb (in_range _ (value info))); repeat constructor; discriminate.
Qed.

(** X4. A keyword is always searched in the normalised, case-folded
    message and without [re.IGNORECASE]; a price is always searched in the
    original message and with [re.IGNORECASE].  For a product without a
    price range (none, or a mapping with neither [min] nor [max]) no
    price is searched at all, and a result of that product carries
    neither price nor currency. *)
Theorem searches_of_a_product message_text product :
  let text := fold_case self (_normalize_text message_text) in
  let run := _match_product re_search self message_text product in
  Forall (fun e => match e with
                   | Call_search false _ t => t = text
                   | Call_search true _ t =>
                       t = message_text /\
                       truthy_range (price_range product) = true
                   | Log _ _ => True
                   end) (trace run) /\
  (truthy_range (price_range product) = false ->
   Forall (keyword_call text) (trace run) /\
   forall r, result run = Ret (Some r) ->
             price r = None /\ res_currency r = None).
Proof.
  cbv zeta.
  set (text := fold_case self (_normalize_text message_text)).
  assert (Hall : Forall (fun e => keyword_call text e \/
                           (price_call message_text e /\
                            (truthy_range (price_range product) = false ->
                             no_call e)))
                   (trace (_match_product re_search self message_text product))).
  { unfold _match_product. fold text.
    apply forall_trace_bind.
    { eapply Forall_impl; [| apply collect_calls]. intros; now left. }
    intros [| k ks] _; [constructor |].
    apply forall_trace_bind.
    { eapply Forall_impl; [| apply excluded_calls]. intros; now left. }
    intros [|] _; [constructor |].
    apply forall_trace_bind.
    { eapply Forall_impl; [| apply check_price_calls]. intros; now right. }
    intros [[pm cur] |] _; constructor. }
  split; [| intros Hno; split].
  - eapply Forall_impl; [| exact Hall].
    intros [[|] pat t | l m]; simpl; auto.
    + intros [[H _] | [[_ Ht] Hn]]; [discriminate |].
      split; [exact Ht |].
      destruct (truthy_range (price_range product)); [reflexivity |].
      now specialize (Hn eq_refl).
    + intros [[_ H] | [[H _] _]]; [exact H | discriminate].
  - eapply Forall_impl; [| exact Hall].
    intros [ic pat t | l m]; simpl; auto.
    intros [H | [_ Hn]]; [exact H | now specialize (Hn Hno)].
  - intros r Hr. rewrite match_product_result in Hr. injection Hr as Hr.
    unfold product_view in Hr. fold text in Hr.
    destruct (filter _ (keywords product)); [discriminate |].
    destruct (existsb _ (exclude_keywords product)); [discriminate |].
    unfold price_view in Hr. rewrite Hno in Hr. injection Hr as <-.
    auto.
Qed.

End WithEngine.

End CallFacts.

Module RobustFacts.

Import Py Re Eff Eff.Notations EffFacts Matcher Spec MoreSpec.
Import KeywordFacts ExtractFacts ProductFacts StepFacts RaiseFacts.

Section WithSearch.

Variable re_search : search_fn.
Variable self : ProductMatcher.

(** X5. A price pattern whose search raises [re.error], [IndexError] or
    [ValueError], whose match has no capturing group ([IndexError]) or
    whose first group took no part in the match ([AttributeError] inside
    the parser) is logged and passed over: the patterns after it decide
    the result.  The only exceptions that leave the extractor are those a
    search raised outside these three; when the searches raise nothing
    else, the extractor returns. *)
Theorem extraction_survives_failures text pc c t :
  pattern pc = Some (c :: t) ->
  let pat := substituted self (c :: t) in
  let failed e := In (Log DEBUG (Pattern_failed pat e))
                     (trace (try_pattern re_search self text pc)) in
  let passed_over :=
    forall rest,
      result (extract_loop re_search self text (pc :: rest)) =
      result (extract_loop re_search self text rest) in
  (forall e, In e [IndexError; ValueError; re_error] ->
             re_search true pat text = Raised e -> failed e /\ passed_over) /\
  (forall mo, re_search true pat text = Returned (Some mo) -> groups mo = [] ->
              failed IndexError /\ passed_over) /\
  (forall mo gs, re_search true pat text = Returned (Some mo) ->
                 groups mo = None :: gs ->
                 In (Log DEBUG (Failed_to_parse None AttributeError))
                    (trace (try_pattern re_search self text pc)) /\
                 passed_over) /\
  (forall e, result (_extract_price re_search self text) = Raise e ->
             escapes re_search e (trace (_extract_price re_search self text))) /\
  ((forall i p t' e, re_search i p t' = Raised e -> caught i e = true) ->
   returns (_extract_price re_search self text)).
Proof.
  intros Hpat pat failed passed_over.
  assert (Hskip : forall tr, try_pattern re_search self text pc = (tr, Ret None) ->
                             passed_over).
  { intros tr Hy rest. cbn [extract_loop]. now rewrite result_bind, Hy. }
  assert (Hrun : forall e,
             In e [IndexError; ValueError; re_error] ->
             re_search true pat text = Raised e ->
             try_pattern re_search self text pc =
             ([Call_search true pat text; Log DEBUG (Pattern_failed pat e)],
              Ret None)).
  { intros e Hin He. unfold try_pattern, search. rewrite Hpat.
    cbn [truthy_str negb get]. fold (substituted self (c :: t)). fold pat.
    rewrite He. destruct Hin as [<- | [<- | [<- | []]]]; reflexivity. }
  assert (Hgroup : forall mo,
             re_search true pat text = Returned (Some mo) -> groups mo = [] ->
             try_pattern re_search self text pc =
             ([Call_search true pat text; Log DEBUG (Pattern_failed pat IndexError)],
              Ret None)).
  { intros mo Hm Hg. unfold try_pattern, search, group1. rewrite Hpat.
    cbn [truthy_str negb get]. fold (substituted self (c :: t)). fold pat.
    rewrite Hm. simpl. rewrite Hg. reflexivity. }
  assert (Hnone : forall mo gs,
             re_search true pat text = Returned (Some mo) ->
             groups mo = None :: gs ->
             try_pattern re_search self text pc =
             ([Call_search true pat text;
               Log DEBUG (Failed_to_parse None AttributeError)],
              Ret None)).
  { intros mo gs Hm Hg. unfold try_pattern, search, group1. rewrite Hpat.
    cbn [truthy_str negb get]. fold (substituted self (c :: t)). fold pat.
    rewrite Hm. simpl. rewrite Hg. reflexivity. }
  unfold failed. split; [| split; [| split; [| split]]].
  - intros e Hin He. rewrite (Hrun e Hin He).
    split; [right; left; reflexivity | exact (Hskip _ (Hrun e Hin He))].
  - intros mo Hm Hg. rewrite (Hgroup mo Hm Hg).
    split; [right; left; reflexivity | exact (Hskip _ (Hgroup mo Hm Hg))].
  - intros mo gs Hm Hg. rewrite (Hnone mo gs Hm Hg).
    split; [right; left; reflexivity | exact (Hskip _ (Hnone mo gs Hm Hg))].
  - intros e. apply extract_escapes.
  - apply tame_returns. intros e. apply extract_escapes.
Qed.

Lemma bind_ret_l {A B} (a : A) (k : A -> M B) : bind ([], Ret a) k = k a.
Proof. unfold bind. now destruct (k a). Qed.

(** Literal mode: pattern matching disabled and [whole_word] off. *)
Lemma literal_keyword text keyword :
  regex_enabled self = false -> whole_word self = false ->
  _match_keyword re_search self text keyword =
  ([], Ret (contains (fold_case self (_normalize_text keyword)) text)).
Proof.
  intros Hr Hw. unfold _match_keyword. rewrite Hr, Hw. reflexivity.
Qed.

End WithSearch.

Section WithEngine.

Variable re_search : engine.
Variable self : ProductMatcher.

(** X7. With pattern matching disabled and [whole_word] off, an empty
    keyword matches every text.  A product that lists the empty string
    among its exclusion keywords therefore never matches, and one that
    lists it among its inclusion keywords passes the keyword step on
    every message. *)
Theorem empty_keyword_matches_everything :
  regex_enabled self = false -> whole_word self = false ->
  (forall text, result (_match_keyword re_search self text []) = Ret true) /\
  (forall message_text product,
     In [] (exclude_keywords product) ->
     result (_match_product re_search self message_text product) = Ret None) /\
  (forall message_text product,
     In [] (keywords product) ->
     exists matched,
       result (collect_keywords re_search self
                 (fold_case self (_normalize_text message_text))
                 (keywords product)) = Ret matched /\
       In [] matched).
Proof.
  intros Hr Hw.
  assert (Hempty : forall text, keyword_hit re_search self text [] = true).
  { intros text. unfold keyword_hit, literal_match. rewrite Hr, Hw.
    unfold fold_case. destruct (case_sensitive self); destruct text; reflexivity. }
  split; [| split].
  - intros text. now rewrite match_keyword_result, Hempty.
  - intros message_text product Hin.
    rewrite match_product_result. unfold product_view. cbv zeta.
    destruct (filter _ (keywords product)); [reflexivity |].
    replace (existsb _ (exclude_keywords product)) with true; [reflexivity |].
    symmetry. apply existsb_exists. exists []. auto.
  - intros message_text product Hin. eexists.
    rewrite collect_result. split; [reflexivity |].
    apply filter_In. auto.
Qed.

End WithEngine.

(** X6. With pattern matching disabled and [whole_word] off, and when no
    product of the catalogue has a price range, [match_message] never
    calls the engine: its trace holds no search and its outcome is the
    same whatever the engine is. *)
Theorem literal_mode_needs_no_engine (self : ProductMatcher) message_text :
  regex_enabled self = false -> whole_word self = false ->
  Forall (fun p => truthy_range (price_range p) = false) (products self) ->
  forall re_search : engine,
    searched (trace (match_message re_search self message_text)) = [] /\
    forall re_search' : engine,
      match_message re_search' self message_text =
      match_message re_search self message_text.
Proof.
  intros Hr Hw Hps re_search.
  assert (Hk : forall re text k,
             _match_keyword re self text k =
             ([], Ret (contains (fold_case self (_normalize_text k)) text))).
  { intros. now apply literal_keyword. }
  assert (Hc : forall re text kws,
             collect_keywords re self text kws =
             ([], Ret (filter (fun k => contains (fold_case self (_normalize_text k))
                                          text) kws))).
  { intros re text kws. induction kws as [| k kws IH]; [reflexivity |].
    cbn [collect_keywords]. rewrite Hk, IH, !bind_ret_l. reflexivity. }
  assert (Hx : forall re text kws,
             searched (trace (excluded re self text kws)) = [] /\
             excluded re self text kws = excluded re_search self text kws).
  { intros re text kws. induction kws as [| k kws IH]; [split; reflexivity |].
    cbn [excluded]. rewrite !Hk, !bind_ret_l.
    destruct (contains _ text); [split; reflexivity | exact IH]. }
  assert (Hp : forall re p,
             truthy_range (price_range p) = false ->
             searched (trace (_match_product re self message_text p)) = [] /\
             _match_product re self message_text p =
             _match_product re_search self message_text p).
  { intros re p Hno. unfold _match_product, check_price.
    rewrite !Hc, Hno, !bind_ret_l.
    destruct (filter _ (keywords p)); [split; reflexivity |].
    destruct (Hx re (fold_case self (_normalize_text message_text))
                 (exclude_keywords p)) as [Hs He].
    rewrite He. split; [| reflexivity].
    rewrite <- He. clear He.
    rewrite trace_bind, searched_app, Hs.
    destruct (result (excluded re self _ (exclude_keywords p))) as [[|] | e];
      reflexivity. }
  assert (Hl : forall re,
             searched (trace (match_loop re self message_text (products self))) = [] /\
             match_loop re self message_text (products self) =
             match_loop re_search self message_text (products self)).
  { intros re. induction Hps as [| p ps Hno _ IH]; [split; reflexivity |].
    cbn [match_loop]. destruct (Hp re p Hno) as [Hs He].
    destruct IH as [IHs IHe]. rewrite IHe, He. split; [| reflexivity].
    rewrite <- He, <- IHe. rewrite trace_bind, searched_app, Hs.
    destruct (result (_match_product re self message_text p)); [| reflexivity].
    rewrite trace_bind, searched_app, IHs.
    destruct (result (match_loop re self message_text ps)); reflexivity. }
  unfold match_message. destruct message_text; [split; reflexivity |].
  split; [apply Hl | intros re'; apply Hl].
Qed.

End RobustFacts.

Module DisguiseFacts.

Import Py Re Eff Eff.Notations EffFacts Matcher Spec MoreSpec.
Import NormalizeFacts KeywordFacts ExtractFacts ProductFacts.
Local Open Scope N_scope.

Lemma table_get_absent d c :
  existsb (fun kv => fst kv =? c) d = false -> table_get d c c = c.
Proof.
  induction d as [| [k v] d IH]; simpl; [reflexivity |].
  intros H. apply orb_false_iff in H as [Hk Hd].
  rewrite N.eqb_sym, Hk. auto.
Qed.

Lemma table_get_present d c :
  existsb (fun kv => fst kv =? c) d = true ->
  In (table_get d c c) (map snd d).
Proof.
  induction d as [| [k v] d IH]; simpl; [discriminate |].
  rewrite (N.eqb_sym k c). destruct (c =? k); [now left |].
  simpl. intros H. right. auto.
Qed.

Lemma existsb_lookalikes c :
  existsb (N.eqb c) lookalikes =
  existsb (fun kv => fst kv =? c) CYRILLIC_TO_LATIN.
Proof.
  unfold lookalikes.
  induction CYRILLIC_TO_LATIN as [| [k v] d IH]; simpl; [reflexivity |].
  now rewrite IH, N.eqb_sym.
Qed.

Lemma lookalikes_are_not_ascii :
  forallb (fun k => 128 <=? k) lookalikes = true.
Proof. reflexivity. Qed.

Lemma normalize_plain (s : str) :
  avoids lookalikes s = true -> _normalize_text s = s.
Proof.
  unfold avoids, _normalize_text. intros H.
  rewrite <- (map_id s) at 2. apply map_ext_in. intros c Hc.
  rewrite forallb_forall in H. specialize (H c Hc).
  apply negb_true_iff in H. rewrite existsb_lookalikes in H.
  now apply table_get_absent.
Qed.

Lemma table_get_in d c :
  existsb (fun kv => fst kv =? c) d = true -> In (c, table_get d c c) d.
Proof.
  induction d as [| [k v] d IH]; simpl; [discriminate |].
  rewrite (N.eqb_sym k c). destruct (N.eqb_spec c k) as [-> | _];
    [now left |].
  simpl. intros H. right. auto.
Qed.

(** X8. Normalisation keeps the length of a text and works character by
    character: in any text, a look-alike of the table is replaced by its
    counterpart and every other character is left as it is.  No
    look-alike is left behind, and a text without look-alikes, a text of
    ASCII characters in particular, is left as it is. *)
Theorem normalize_touches_lookalikes_only (s : str) :
  List.length (_normalize_text s) = List.length s /\
  Forall2 normalized_as s (_normalize_text s) /\
  (avoids lookalikes s = true -> _normalize_text s = s) /\
  avoids lookalikes (_normalize_text s) = true /\
  (forallb (fun c => c <? 128) s = true -> _normalize_text s = s).
Proof.
  pose proof (normalize_plain s) as Hid.
  split; [apply length_map |]. split.
  { clear Hid. unfold _normalize_text.
    induction s as [| c s IH]; constructor; [| exact IH].
    unfold normalized_as. rewrite existsb_lookalikes.
    destruct (existsb (fun kv => fst kv =? c) CYRILLIC_TO_LATIN) eqn:Hc;
      [now apply table_get_in | now apply table_get_absent]. }
  split; [exact Hid |]. split.
  - unfold avoids, _normalize_text.
    apply forallb_forall. intros x Hx. apply in_map_iff in Hx as [c [<- _]].
    apply negb_true_iff.
    rewrite existsb_lookalikes.
    destruct (existsb (fun kv => fst kv =? c) CYRILLIC_TO_LATIN) eqn:Hc.
    + apply table_get_present in Hc.
      pose proof (proj1 (Forall_forall _ _) values_are_not_keys _ Hc) as Hv.
      apply not_true_is_false. intros Hex.
      apply existsb_exists in Hex as [kv [Hin Hk]].
      rewrite forallb_forall in Hv. specialize (Hv kv Hin).
      rewrite Hk in Hv. discriminate.
    + now rewrite (table_get_absent _ _ Hc).
  - intros H. apply Hid. unfold avoids. apply forallb_forall. intros c Hc.
    rewrite forallb_forall in H. specialize (H c Hc).
    apply negb_true_iff, not_true_is_false. intros Hex.
    apply existsb_exists in Hex as [k [Hin Hk]]. apply N.eqb_eq in Hk. subst k.
    pose proof lookalikes_are_not_ascii as Hl. rewrite forallb_forall in Hl.
    specialize (Hl c Hin). apply N.leb_le in Hl. apply N.ltb_lt in H. lia.
Qed.

Section WithEngine.

Variable re_search : engine.
Variable self : ProductMatcher.

(** Each key of the table is looked up to the value listed with it. *)
Lemma table_get_listed k v :
  In (k, v) CYRILLIC_TO_LATIN -> table_get CYRILLIC_TO_LATIN k k = v.
Proof.
  intros Hin.
  assert (H : forallb (fun kv => table_get CYRILLIC_TO_LATIN (fst kv) (fst kv)
                                 =? snd kv) CYRILLIC_TO_LATIN = true)
    by reflexivity.
  rewrite forallb_forall in H. apply N.eqb_eq. exact (H (k, v) Hin).
Qed.

Lemma disguise_is_undone t t' :
  Forall2 stands_for t' t -> avoids lookalikes t = true ->
  _normalize_text t' = t.
Proof.
  induction 1 as [| c' c t' t Hc _ IH]; [reflexivity |].
  unfold avoids. cbn [forallb]. rewrite andb_true_iff. intros [Hk Ht].
  cbn [_normalize_text map]. f_equal; [| exact (IH Ht)].
  destruct Hc as [-> | Hin]; [| now apply table_get_listed].
  apply table_get_absent. rewrite <- existsb_lookalikes.
  now apply negb_true_iff.
Qed.

(** X9. Look-alike spelling does not hide a keyword.  A message in which
    any characters are replaced by Cyrillic look-alikes of the table
    normalises to the message as plainly written; it gives the same
    matched keywords and the same exclusion verdict for every product,
    and the same outcome for every product without a price range.  (The
    price is looked for in the message as written.) *)
Theorem lookalikes_do_not_hide_keywords t t' product :
  Forall2 stands_for t' t -> avoids lookalikes t = true ->
  let text := fold_case self (_normalize_text t) in
  let text' := fold_case self (_normalize_text t') in
  _normalize_text t' = t /\
  collect_keywords re_search self text' (keywords product) =
    collect_keywords re_search self text (keywords product) /\
  excluded re_search self text' (exclude_keywords product) =
    excluded re_search self text (exclude_keywords product) /\
  (truthy_range (price_range product) = false ->
   _match_product re_search self t' product =
   _match_product re_search self t product).
Proof.
  intros Hd Ha. cbv zeta.
  pose proof (disguise_is_undone t t' Hd Ha) as H'.
  pose proof (normalize_plain t Ha) as H.
  split; [exact H' |]. rewrite H', H.
  split; [reflexivity |]. split; [reflexivity |].
  intros Hno. unfold _match_product, check_price. now rewrite H', H, Hno.
Qed.

(** X10. Whole-word matching is stricter than substring matching: with
    pattern matching disabled, a keyword that matches a text as a whole
    word occurs in it. *)
Theorem whole_word_match_is_substring text keyword :
  regex_enabled self = false -> whole_word self = true ->
  result (_match_keyword re_search self text keyword) = Ret true ->
  contains (fold_case self (_normalize_text keyword)) text = true.
Proof.
  intros Hr Hw. rewrite match_keyword_result.
  unfold keyword_hit, literal_match. rewrite Hr, Hw. intros [= H].
  revert H. unfold word_search. generalize (@None char).
  generalize (fold_case self (_normalize_text keyword)). intros kw.
  induction text as [| c text IH]; intros prev.
  - cbn [word_search_from contains]. unfold word_at.
    rewrite orb_false_r, !andb_true_iff. intros [[_ H] _]. now rewrite H.
  - cbn [word_search_from contains]. unfold word_at.
    rewrite !orb_true_iff, !andb_true_iff.
    intros [[[_ H] _] | H]; [now left | right; eauto].
Qed.

End WithEngine.

End DisguiseFacts.

Module SymmetryFacts.

Import Py Re Eff EffFacts Matcher Spec MoreSpec ExtractFacts.
Local Open Scope N_scope.

Lemma swap_dot c : (swap_separator c =? dot) = (c =? comma).
Proof.
  unfold swap_separator.
  destruct (N.eqb_spec c dot) as [-> | Hd]; [reflexivity |].
  destruct (N.eqb_spec c comma) as [-> | Hc]; [reflexivity |].
  now apply N.eqb_neq.
Qed.

Lemma swap_comma c : (swap_separator c =? comma) = (c =? dot).
Proof.
  unfold swap_separator.
  destruct (N.eqb_spec c dot) as [-> | Hd]; [reflexivity |].
  destruct (N.eqb_spec c comma) as [-> | Hc]; [reflexivity |].
  now apply N.eqb_neq.
Qed.

Lemma swap_other c :
  (c =? dot) = false -> (c =? comma) = false -> swap_separator c = c.
Proof. unfold swap_separator. now intros -> ->. Qed.

Lemma swap_space c : isspace (swap_separator c) = isspace c.
Proof.
  unfold swap_separator.
  destruct (N.eqb_spec c dot) as [-> | _]; [reflexivity |].
  destruct (N.eqb_spec c comma) as [-> | _]; reflexivity.
Qed.

Lemma swap_digit c : isdigit_char (swap_separator c) = isdigit_char c.
Proof.
  unfold swap_separator.
  destruct (N.eqb_spec c dot) as [-> | _]; [reflexivity |].
  destruct (N.eqb_spec c comma) as [-> | _]; reflexivity.
Qed.

Lemma swap_of_digits s :
  forallb isdigit_char s = true -> swap_separators s = s.
Proof.
  unfold swap_separators. intros H. rewrite <- (map_id s) at 2.
  apply map_ext_in. intros c Hc. rewrite forallb_forall in H.
  specialize (H c Hc). apply swap_other.
  - destruct (N.eqb_spec c dot) as [-> | _]; [discriminate | reflexivity].
  - destruct (N.eqb_spec c comma) as [-> | _]; [discriminate | reflexivity].
Qed.

Lemma rfind_from_swap s : forall i acc,
  rfind_from dot (swap_separators s) i acc = rfind_from comma s i acc /\
  rfind_from comma (swap_separators s) i acc = rfind_from dot s i acc.
Proof.
  induction s as [| c s IH]; intros i acc; [split; reflexivity |].
  cbn [swap_separators map rfind_from]. rewrite swap_dot, swap_comma.
  split; apply IH.
Qed.

Lemma lstrip_swap s : lstrip (swap_separators s) = swap_separators (lstrip s).
Proof.
  induction s as [| c s IH]; [reflexivity |].
  cbn [swap_separators map lstrip]. rewrite swap_space.
  destruct (isspace c); [exact IH | reflexivity].
Qed.

Lemma strip_swap s : strip (swap_separators s) = swap_separators (strip s).
Proof.
  unfold strip, rstrip. rewrite lstrip_swap.
  unfold swap_separators at 1. rewrite <- map_rev.
  fold (swap_separators (rev (lstrip s))). rewrite lstrip_swap.
  unfold swap_separators. now rewrite map_rev.
Qed.

Lemma slice_from_swap i s :
  slice_from i (swap_separators s) = swap_separators (slice_from i s).
Proof.
  unfold slice_from, clamp, len, swap_separators.
  now rewrite length_map, skipn_map.
Qed.

Lemma slice_to_swap i s :
  slice_to i (swap_separators s) = swap_separators (slice_to i s).
Proof.
  unfold slice_to, clamp, len, swap_separators.
  now rewrite length_map, firstn_map.
Qed.

Lemma decimal_tail_swap s :
  decimal_tail (swap_separators s) = decimal_tail s.
Proof.
  unfold decimal_tail, len, isdigit, swap_separators. rewrite length_map.
  destruct s as [| c s]; [reflexivity |]. cbn [map].
  f_equal. cbn [forallb]. rewrite swap_digit. f_equal.
  induction s as [| x s IH]; [reflexivity |].
  cbn [map forallb]. now rewrite swap_digit, IH.
Qed.

Lemma decimal_tail_all_digits s :
  decimal_tail s = true -> forallb isdigit_char s = true.
Proof.
  unfold decimal_tail, isdigit. rewrite !andb_true_iff. intros [_ H].
  destruct s; [discriminate | exact H].
Qed.

Lemma remove_separators_swap s :
  remove_separators (swap_separators s) = remove_separators s.
Proof.
  unfold remove_separators, remove_char, swap_separators.
  induction s as [| c s IH]; [reflexivity |].
  cbn [map filter]. rewrite swap_comma.
  destruct (N.eqb_spec c dot) as [-> | Hd].
  - cbn. exact IH.
  - destruct (N.eqb_spec c comma) as [-> | Hc].
    + cbn. exact IH.
    + rewrite swap_other by now apply N.eqb_neq.
      apply N.eqb_neq in Hd, Hc.
      cbn [negb filter]. rewrite Hd. cbn [negb filter].
      destruct (negb (c =? space)); cbn [filter]; [| exact IH].
      destruct (negb (c =? nbsp)); [now rewrite IH | exact IH].
Qed.

Lemma join_parts_swap t : join_parts (swap_separators t) = join_parts t.
Proof.
  unfold join_parts, find_decimal, rfind.
  rewrite (proj1 (rfind_from_swap t 0 (-1))), (proj2 (rfind_from_swap t 0 (-1))).
  fold (rfind dot t) (rfind comma t).
  rewrite !slice_from_swap, !decimal_tail_swap.
  destruct (rfind comma t >? rfind dot t)%Z eqn:Hcd;
    destruct (rfind dot t >? rfind comma t)%Z eqn:Hdc.
  - exfalso. rewrite Z.gtb_ltb in Hcd, Hdc.
    apply Z.ltb_lt in Hcd, Hdc. lia.
  - destruct (decimal_tail (slice_from (rfind comma t + 1) t)) eqn:Ht;
      [| apply remove_separators_swap].
    destruct (rfind comma t >? 0)%Z; [| apply remove_separators_swap].
    rewrite slice_to_swap, slice_from_swap, remove_separators_swap.
    now rewrite (swap_of_digits _ (decimal_tail_all_digits _ Ht)).
  - destruct (decimal_tail (slice_from (rfind dot t + 1) t)) eqn:Ht;
      [| apply remove_separators_swap].
    destruct (rfind dot t >? 0)%Z; [| apply remove_separators_swap].
    rewrite slice_to_swap, slice_from_swap, remove_separators_swap.
    now rewrite (swap_of_digits _ (decimal_tail_all_digits _ Ht)).
  - apply remove_separators_swap.
Qed.

(** X11. The parser treats the dot and the comma alike: exchanging every
    dot with a comma and every comma with a dot in a price string does
    not change the value it parses to, or its failure to parse. *)
Theorem parser_is_symmetric_in_separators (price_str : str) :
  result (_parse_price_string (Some (swap_separators price_str))) =
  result (_parse_price_string (Some price_str)).
Proof.
  rewrite !parse_result. now rewrite strip_swap, join_parts_swap.
Qed.

End SymmetryFacts.

(* ================================================================== *)
(** * Channel identifiers *)
(* ================================================================== *)

Module ChannelFacts.

Import Py PyMore Eff Monitor MoreSpec CharFacts.
Local Open Scope N_scope.

(** ** Stripping *)

Lemma lstrip_id c s : isspace c = false -> lstrip (c :: s) = c :: s.
Proof. intros H. simpl. now rewrite H. Qed.

Lemma strip_id c s :
  isspace c = false -> ends_with_space (c :: s) = false ->
  strip (c :: s) = c :: s.
Proof.
  intros Hc He. unfold strip, rstrip. rewrite lstrip_id by exact Hc.
  unfold ends_with_space in He.
  destruct (rev (c :: s)) as [| x y] eqn:Hr.
  - apply (f_equal (@List.length char)) in Hr.
    rewrite length_rev in Hr. discriminate.
  - rewrite lstrip_id by exact He. rewrite <- Hr. apply rev_involutive.
Qed.

Lemma ends_with_space_app a b :
  b <> [] -> ends_with_space (a ++ b) = ends_with_space b.
Proof.
  intros Hb. unfold ends_with_space. rewrite rev_app_distr.
  destruct (rev b) as [| x y] eqn:Hr; [| reflexivity].
  apply (f_equal (@List.length char)) in Hr. rewrite length_rev in Hr.
  destruct b; [congruence | discriminate].
Qed.

Lemma ends_with_space_nospace s :
  forallb (fun c => negb (isspace c)) s = true -> ends_with_space s = false.
Proof.
  intros H. unfold ends_with_space.
  destruct (rev s) as [| x y] eqn:Hr; [reflexivity |].
  rewrite forallb_forall in H. apply negb_true_iff, H, in_rev.
  rewrite Hr. now left.
Qed.

(** ** Plain user names *)

Lemma ascii_word_facts c :
  ascii_word c = true ->
  isspace c = false /\ (c =? 46) = false /\ (c =? 47) = false /\
  (c =? 63) = false /\ (c =? 45) = false /\ (lower_char c =? 46) = false.
Proof.
  intros H.
  assert (Hm : modelled c = true).
  { unfold modelled. unfold ascii_word, ascii_letter, between in H.
    rewrite !orb_true_iff, !andb_true_iff, !N.leb_le, N.eqb_eq in H.
    replace (c <=? 127) with true; [reflexivity |].
    symmetry. apply N.leb_le. lia. }
  pose proof (on_modelled
    (fun c => negb (ascii_word c) ||
              (negb (isspace c) && negb (c =? 46) && negb (c =? 47) &&
               negb (c =? 63) && negb (c =? 45) && negb (lower_char c =? 46)))
    eq_refl c Hm) as Hc.
  cbv beta in Hc. rewrite H in Hc. cbn [negb orb] in Hc.
  rewrite !andb_true_iff, !negb_true_iff in Hc. tauto.
Qed.

Lemma plain_username_words u :
  plain_username u = true -> u <> [] /\ forallb ascii_word u = true.
Proof.
  destruct u as [| c u]; [discriminate |]. cbn [plain_username forallb].
  rewrite andb_true_iff. intros [Hc Hu]. split; [discriminate |].
  apply andb_true_iff. split; [| exact Hu].
  unfold ascii_word. now rewrite Hc.
Qed.

Lemma words_nospace u :
  forallb ascii_word u = true -> forallb (fun c => negb (isspace c)) u = true.
Proof.
  rewrite !forallb_forall. intros H c Hc.
  now rewrite (proj1 (ascii_word_facts c (H c Hc))).
Qed.

Lemma strip_words u : forallb ascii_word u = true -> strip u = u.
Proof.
  intros H. destruct u as [| c u]; [reflexivity |].
  apply strip_id.
  - cbn [forallb] in H. apply andb_true_iff in H as [Hc _].
    apply (ascii_word_facts c Hc).
  - apply ends_with_space_nospace, words_nospace, H.
Qed.

(** ** Splitting *)

Lemma split_from_skip sep x : forall cur s,
  split_from sep (List.length x) cur (x ++ s) = split_from sep 0 cur s.
Proof.
  induction x as [| c x IH]; intros cur s; [reflexivity |].
  cbn [List.length app].
  destruct s as [| d s']; cbn [split_from]; apply IH.
Qed.

Lemma split_from_cons sep cur c s :
  startswith sep (c :: s) = false ->
  split_from sep 0 cur (c :: s) = split_from sep 0 (c :: cur) s.
Proof. intros H. cbn [split_from]. now rewrite H. Qed.

Lemma split_from_first sep : forall s skip cur,
  exists x rest, split_from sep skip cur s = (rev cur ++ x) :: rest.
Proof.
  induction s as [| c s IH]; intros skip cur.
  - exists [], []. cbn. now rewrite app_nil_r.
  - cbn [split_from]. destruct skip as [| k]; [| apply IH].
    destruct (startswith sep (c :: s)).
    + exists [], (split_from sep (pred (List.length sep)) [] s).
      now rewrite app_nil_r.
    + destruct (IH 0%nat (c :: cur)) as (x & rest & E).
      exists (c :: x), rest. rewrite E. cbn [rev]. now rewrite <- app_assoc.
Qed.

(** No occurrence of the separator: one piece. *)
Lemma split_from_absent sep : forall s cur,
  contains sep s = false -> split_from sep 0 cur s = [rev cur ++ s].
Proof.
  induction s as [| c s IH]; intros cur H.
  - cbn. now rewrite app_nil_r.
  - cbn [contains] in H. apply orb_false_iff in H as [Hs Hc].
    rewrite split_from_cons by exact Hs. rewrite IH by exact Hc. cbn [rev].
    now rewrite <- app_assoc.
Qed.

(** The first piece for a one-character separator. *)
Lemma split_char_first c : forall s cur,
  first (split_from [c] 0 cur s) = rev cur ++ upto c s.
Proof.
  induction s as [| x s IH]; intros cur.
  - cbn. now rewrite app_nil_r.
  - cbn [split_from startswith upto]. rewrite N.eqb_sym.
    destruct (x =? c); cbn [andb first hd].
    + now rewrite app_nil_r.
    + rewrite IH. cbn [rev]. now rewrite <- app_assoc.
Qed.

Lemma upto_app c u r :
  forallb (fun x => negb (x =? c)) u = true -> upto c (u ++ r) = u ++ upto c r.
Proof.
  induction u as [| x u IH]; [reflexivity |].
  cbn [forallb app upto]. rewrite andb_true_iff, negb_true_iff.
  intros [-> Hu]. now rewrite IH.
Qed.

(** The separator [t.me/] cannot begin where no dot follows. *)
Lemma no_tme_without_dot c s :
  match s with
  | d :: _ => (d =? 46) = false
  | [] => True
  end ->
  startswith (lit "t.me/") (c :: s) = false.
Proof.
  intros H. change (lit "t.me/") with [116; 46; 109; 101; 47].
  cbn [startswith]. destruct (116 =? c); [| reflexivity].
  destruct s as [| d s]; [reflexivity |].
  rewrite N.eqb_sym, H. reflexivity.
Qed.

Lemma split_tme_words u : forall cur r,
  forallb ascii_word u = true ->
  match r with
  | d :: _ => (d =? 46) = false
  | [] => True
  end ->
  split_from (lit "t.me/") 0 cur (u ++ r) =
  split_from (lit "t.me/") 0 (rev u ++ cur) r.
Proof.
  induction u as [| c u IH]; intros cur r Hu Hr; [reflexivity |].
  cbn [forallb] in Hu. apply andb_true_iff in Hu as [Hc Hu].
  cbn [app]. rewrite split_from_cons.
  - rewrite IH by assumption. cbn [rev]. now rewrite <- app_assoc.
  - apply no_tme_without_dot. destruct u as [| d u'].
    + exact Hr.
    + cbn [forallb] in Hu. apply andb_true_iff in Hu as [Hd _].
      apply (ascii_word_facts d Hd).
Qed.

Lemma contains_tme_words s :
  forallb (fun c => negb (c =? 46)) s = true ->
  contains (lit "t.me/") s = false.
Proof.
  induction s as [| c s IH]; [reflexivity |].
  cbn [forallb]. rewrite andb_true_iff. intros [_ Hs].
  cbn [contains]. rewrite (IH Hs), orb_false_r.
  apply no_tme_without_dot. destruct s as [| d s']; [exact I |].
  cbn [forallb] in Hs. apply andb_true_iff in Hs as [Hd _].
  now apply negb_true_iff in Hd.
Qed.

(** The user name is what the two inner splits leave of the piece after
    the separator. *)
Lemma username_of_piece u x :
  forallb ascii_word u = true ->
  match x with
  | [] => True
  | c :: _ => (c =? 47) || (c =? 63) = true
  end ->
  first (split (lit "?") (first (split (lit "/") (u ++ x)))) = u.
Proof.
  intros Hu Hx. unfold split. change (lit "/") with [47]. change (lit "?") with [63].
  rewrite !split_char_first. cbn [rev app].
  assert (H47 : forallb (fun c => negb (c =? 47)) u = true).
  { rewrite forallb_forall in *. intros c Hc.
    apply negb_true_iff, (ascii_word_facts c (Hu c Hc)). }
  assert (H63 : forallb (fun c => negb (c =? 63)) u = true).
  { rewrite forallb_forall in *. intros c Hc.
    apply negb_true_iff, (ascii_word_facts c (Hu c Hc)). }
  rewrite upto_app by exact H47.
  destruct x as [| c x]; cbn [upto].
  - rewrite app_nil_r. rewrite <- (app_nil_r u) at 1.
    rewrite upto_app by exact H63. cbn. now rewrite app_nil_r.
  - destruct (N.eqb_spec c 47) as [-> | H].
    + rewrite app_nil_r. rewrite <- (app_nil_r u) at 1.
      rewrite upto_app by exact H63. cbn. now rewrite app_nil_r.
    + cbn [orb] in Hx. apply N.eqb_eq in Hx. subst c.
      rewrite upto_app by exact H63. cbn. now rewrite app_nil_r.
Qed.

Lemma ascii_letter_facts c :
  ascii_letter c = true ->
  ascii_word c = true /\ isdigit_char c = false /\ (c =? 64) = false /\
  (c =? 45) = false.
Proof.
  intros H.
  assert (Hm : modelled c = true).
  { unfold modelled. unfold ascii_letter, between in H.
    rewrite !orb_true_iff, !andb_true_iff, !N.leb_le in H.
    replace (c <=? 127) with true; [reflexivity |].
    symmetry. apply N.leb_le. lia. }
  pose proof (on_modelled
    (fun c => negb (ascii_letter c) ||
              (ascii_word c && negb (isdigit_char c) && negb (c =? 64) &&
               negb (c =? 45)))
    eq_refl c Hm) as Hc.
  cbv beta in Hc. rewrite H in Hc. cbn [negb orb] in Hc.
  rewrite !andb_true_iff, !negb_true_iff in Hc. tauto.
Qed.

Lemma split_after_prefix p rest :
  In p url_prefixes ->
  exists p0, split_from (lit "t.me/") 0 [] (p ++ rest) =
             p0 :: split_from (lit "t.me/") 0 [] rest.
Proof.
  intros [<- | [<- | [<- | []]]]; eexists; reflexivity.
Qed.

Lemma piece_after_name u r :
  forallb ascii_word u = true -> link_tail r = true ->
  exists x rest,
    split_from (lit "t.me/") 0 [] (u ++ r) = (u ++ x) :: rest /\
    match x with
    | [] => True
    | c :: _ => (c =? 47) || (c =? 63) = true
    end.
Proof.
  intros Hu Hr.
  assert (Hdot : match r with d :: _ => (d =? 46) = false | [] => True end).
  { destruct r as [| d r]; [exact I |]. cbn [link_tail] in Hr.
    apply andb_true_iff in Hr as [Hd _].
    apply orb_true_iff in Hd as [Hd | Hd]; apply N.eqb_eq in Hd; now subst d. }
  rewrite split_tme_words by assumption. rewrite app_nil_r.
  destruct r as [| d r].
  - exists [], []. cbn [split_from]. rewrite rev_involutive, app_nil_r. auto.
  - cbn [link_tail] in Hr. apply andb_true_iff in Hr as [Hd _].
    assert (Hs : startswith (lit "t.me/") (d :: r) = false).
    { apply orb_true_iff in Hd as [Hd | Hd]; apply N.eqb_eq in Hd; subst d;
        reflexivity. }
    rewrite split_from_cons by exact Hs.
    destruct (split_from_first (lit "t.me/") r 0 (d :: rev u)) as (x & rest & E).
    exists (d :: x), rest. rewrite E. cbn [rev].
    rewrite rev_involutive, <- app_assoc. auto.
Qed.

(** A link to a channel, with or without scheme, path and query. *)
Lemma url_gives_username p u r :
  In p url_prefixes -> plain_username u = true -> link_tail r = true ->
  _normalize_channel_id (Str (p ++ u ++ r)) = Ret (Str u).
Proof.
  intros Hp Hu Hr.
  destruct (plain_username_words u Hu) as [Hne Hw].
  assert (Hstrip : strip (p ++ u ++ r) = p ++ u ++ r).
  { assert (He : ends_with_space (p ++ u ++ r) = false).
    { destruct r as [| d r].
      - rewrite app_nil_r, ends_with_space_app by exact Hne.
        apply ends_with_space_nospace, words_nospace, Hw.
      - rewrite app_assoc, ends_with_space_app by discriminate.
        cbn [link_tail] in Hr. apply andb_true_iff in Hr as [_ Hr].
        now apply negb_true_iff in Hr. }
    destruct Hp as [<- | [<- | [<- | []]]]; now apply strip_id. }
  assert (Hnum : isdigit (lstrip_char dash (p ++ u ++ r)) = false).
  { destruct Hp as [<- | [<- | [<- | []]]]; reflexivity. }
  assert (Hurl : contains (lit "t.me/") (lower (p ++ u ++ r)) = true).
  { unfold lower. rewrite map_app.
    destruct Hp as [<- | [<- | [<- | []]]]; reflexivity. }
  destruct (split_after_prefix p (u ++ r) Hp) as [p0 Hsplit].
  destruct (piece_after_name u r Hw Hr) as (x & rest & Hpiece & Hx).
  unfold _normalize_channel_id. rewrite Hstrip, Hnum, Hurl.
  unfold split at 1. rewrite Hsplit, Hpiece.
  now rewrite username_of_piece, strip_words.
Qed.

Lemma formats_give_username u :
  plain_username u = true ->
  _normalize_channel_id (Str (lit "https://t.me/" ++ u)) = Ret (Str u) /\
  _normalize_channel_id (Str (lit "http://t.me/" ++ u)) = Ret (Str u) /\
  _normalize_channel_id (Str (lit "t.me/" ++ u)) = Ret (Str u) /\
  _normalize_channel_id (Str (lit "@" ++ u)) = Ret (Str u) /\
  _normalize_channel_id (Str u) = Ret (Str u).
Proof.
  intros Hu.
  assert (Hurl : forall p, In p url_prefixes ->
                           _normalize_channel_id (Str (p ++ u)) = Ret (Str u)).
  { intros p Hp. rewrite <- (app_nil_r u) at 1.
    now apply url_gives_username. }
  split; [apply Hurl; cbn; auto |].
  split; [apply Hurl; cbn; auto |].
  split; [apply Hurl; cbn; auto |].
  destruct (plain_username_words u Hu) as [Hne Hw].
  assert (Hdots : forallb (fun c => negb (c =? 46)) (lower u) = true).
  { unfold lower. apply forallb_forall. intros x Hx.
    apply in_map_iff in Hx as [c [<- Hc]]. rewrite forallb_forall in Hw.
    apply negb_true_iff, (ascii_word_facts c (Hw c Hc)). }
  destruct u as [| c u]; [discriminate |].
  cbn [plain_username] in Hu. apply andb_true_iff in Hu as [Hc _].
  destruct (ascii_letter_facts c Hc) as (_ & Hd & H64 & H45).
  split.
  - unfold _normalize_channel_id.
    assert (Hs : strip (lit "@" ++ c :: u) = lit "@" ++ c :: u).
    { apply strip_id; [reflexivity |].
      change (ends_with_space ([64] ++ c :: u) = false).
      rewrite ends_with_space_app by discriminate.
      apply ends_with_space_nospace, words_nospace, Hw. }
    rewrite Hs.
    replace (contains (lit "t.me/") (lower (lit "@" ++ c :: u))) with false
      by (symmetry; apply contains_tme_words;
          change (lower (lit "@" ++ c :: u)) with (64 :: lower (c :: u));
          cbn [forallb]; now rewrite Hdots).
    change (lit "@" ++ c :: u) with (64 :: c :: u).
    now rewrite ParseFacts.slice_from_one.
  - unfold _normalize_channel_id. rewrite (strip_words _ Hw).
    replace (contains (lit "t.me/") (lower (c :: u))) with false
      by (symmetry; now apply contains_tme_words).
    cbn [lstrip_char]. unfold dash. rewrite H45.
    cbn [isdigit forallb]. rewrite Hd. cbn [andb].
    change (lit "@") with [64]. cbn [startswith]. rewrite N.eqb_sym, H64.
    reflexivity.
Qed.

(** X12. The documented ways of writing a public channel all give its
    user name: the [https] link, the [http] link, the link without a
    scheme, the name after an at sign and the bare name. *)
Theorem channel_formats_agree u :
  plain_username u = true ->
  _normalize_channel_id (Str (lit "https://t.me/" ++ u)) = Ret (Str u) /\
  _normalize_channel_id (Str (lit "http://t.me/" ++ u)) = Ret (Str u) /\
  _normalize_channel_id (Str (lit "t.me/" ++ u)) = Ret (Str u) /\
  _normalize_channel_id (Str (lit "@" ++ u)) = Ret (Str u) /\
  _normalize_channel_id (Str u) = Ret (Str u).
Proof. exact (formats_give_username u). Qed.

(** X13. Whatever follows the user name in a link, a path or a query, is
    dropped. *)
Theorem link_path_and_query_are_dropped p u r :
  In p url_prefixes -> plain_username u = true -> link_tail r = true ->
  _normalize_channel_id (Str (p ++ u ++ r)) = Ret (Str u).
Proof. apply url_gives_username. Qed.

End ChannelFacts.

Module NumericFacts.

Import Py PyMore Eff Monitor MoreSpec CharFacts ChannelFacts.
Local Open Scope N_scope.

Lemma digit_facts c :
  isdigit_char c = true ->
  isspace c = false /\ (c =? 45) = false /\ (c =? 43) = false /\
  take_sign [c] = (false, [c]).
Proof.
  intros H.
  assert (Hm : modelled c = true).
  { unfold modelled. unfold isdigit_char, between in H.
    rewrite andb_true_iff, !N.leb_le in H.
    replace (c <=? 127) with true; [reflexivity |].
    symmetry. apply N.leb_le. lia. }
  pose proof (on_modelled
    (fun c => negb (isdigit_char c) ||
              (negb (isspace c) && negb (c =? 45) && negb (c =? 43) &&
               match take_sign [c] with
               | (false, [x]) => x =? c
               | _ => false
               end))
    eq_refl c Hm) as Hc.
  cbv beta in Hc. rewrite H in Hc. cbn [negb orb] in Hc.
  rewrite !andb_true_iff, !negb_true_iff in Hc.
  destruct Hc as [[[H1 H2] H3] H4]. repeat split; auto.
  destruct (take_sign [c]) as [[|] [| x [| y l]]]; try discriminate.
  apply N.eqb_eq in H4. now subst.
Qed.

(** The sign is read off the first character only. *)
Lemma take_sign_tail c s :
  take_sign [c] = (false, [c]) -> take_sign (c :: s) = (false, c :: s).
Proof.
  unfold take_sign. destruct c as [| p]; [reflexivity |].
  repeat (destruct p as [p | p |]; try reflexivity; try discriminate).
Qed.

Lemma digits_us_all ds :
  forallb isdigit_char ds = true ->
  digits_us ds true = Some (map (fun c => c - 48) ds).
Proof.
  induction ds as [| c ds IH]; [reflexivity |].
  cbn [forallb]. rewrite andb_true_iff. intros [Hc Hds].
  cbn [digits_us map]. now rewrite Hc, (IH Hds).
Qed.

Lemma digitpart_all ds :
  ds <> [] -> forallb isdigit_char ds = true ->
  digitpart ds = Some (map (fun c => c - 48) ds).
Proof.
  destruct ds as [| c ds]; [congruence |]. intros _.
  cbn [forallb]. rewrite andb_true_iff. intros [Hc Hds].
  unfold digitpart. cbn [digits_us map]. now rewrite Hc, (digits_us_all ds Hds).
Qed.

Lemma digits_nospace ds :
  forallb isdigit_char ds = true ->
  forallb (fun c => negb (isspace c)) ds = true.
Proof.
  rewrite !forallb_forall. intros H c Hc.
  now rewrite (proj1 (digit_facts c (H c Hc))).
Qed.

Lemma strip_nospace s :
  forallb (fun c => negb (isspace c)) s = true -> strip s = s.
Proof.
  intros H. destruct s as [| c s]; [reflexivity |].
  apply strip_id; [| now apply ends_with_space_nospace].
  cbn [forallb] in H. apply andb_true_iff in H as [Hc _].
  now apply negb_true_iff in Hc.
Qed.

Lemma int_of_digits ds :
  ds <> [] -> forallb isdigit_char ds = true ->
  int_of_str ds = Some (decimal_value ds) /\
  int_of_str (dash :: ds) = Some (- decimal_value ds)%Z /\
  int_of_str (dash :: dash :: ds) = None.
Proof.
  intros Hne Hd. unfold int_of_str.
  pose proof (digits_nospace ds Hd) as Hns.
  rewrite !strip_nospace by (cbn [forallb]; rewrite ?Hns; reflexivity).
  destruct ds as [| c ds]; [congruence |].
  assert (Hc : isdigit_char c = true)
    by (cbn [forallb] in Hd; now apply andb_true_iff in Hd).
  destruct (digit_facts c Hc) as (_ & _ & _ & Hsign).
  rewrite (take_sign_tail c ds Hsign).
  change (take_sign (dash :: c :: ds)) with (true, c :: ds).
  change (take_sign (dash :: dash :: c :: ds)) with (true, dash :: c :: ds).
  cbv beta iota. rewrite (digitpart_all (c :: ds) Hne Hd).
  repeat split; reflexivity.
Qed.

Lemma lstrip_dashes k ds :
  forallb isdigit_char ds = true ->
  lstrip_char dash (repeat dash k ++ ds) = ds.
Proof.
  intros Hd. induction k as [| k IH]; [| exact IH].
  destruct ds as [| c ds]; [reflexivity |].
  cbn [forallb] in Hd. apply andb_true_iff in Hd as [Hc _].
  cbn [repeat app lstrip_char]. unfold dash.
  now rewrite (proj1 (proj2 (digit_facts c Hc))).
Qed.

Lemma repeat_dash_nospace k ds :
  forallb isdigit_char ds = true ->
  forallb (fun c => negb (isspace c)) (repeat dash k ++ ds) = true.
Proof.
  intros Hd. rewrite forallb_app, (digits_nospace ds Hd), andb_true_r.
  induction k as [| k IH]; [reflexivity | exact IH].
Qed.

Lemma numeric_ids ds :
  ds <> [] -> forallb isdigit_char ds = true ->
  (List.length ds <= int_max_str_digits)%nat ->
  _normalize_channel_id (Str ds) = Ret (Int (decimal_value ds)) /\
  _normalize_channel_id (Str (dash :: ds)) = Ret (Int (- decimal_value ds)) /\
  _normalize_channel_id (Int (- decimal_value ds)) =
    Ret (Int (- decimal_value ds)) /\
  forall k, (2 <= k)%nat ->
            _normalize_channel_id (Str (repeat dash k ++ ds)) = Raise ValueError.
Proof.
  intros Hne Hd _.
  destruct (int_of_digits ds Hne Hd) as (H0 & H1 & H2).
  assert (Hdig : isdigit ds = true) by (destruct ds; [congruence | exact Hd]).
  pose proof (digits_nospace ds Hd) as Hns.
  pose proof (lstrip_dashes 0 ds Hd) as L0. cbn [repeat app] in L0.
  pose proof (lstrip_dashes 1 ds Hd) as L1. cbn [repeat app] in L1.
  pose proof (strip_nospace _ (repeat_dash_nospace 1 ds Hd)) as S1.
  cbn [repeat app] in S1.
  split; [| split; [| split; [reflexivity |]]].
  - unfold _normalize_channel_id.
    rewrite (strip_nospace ds Hns), L0, Hdig, H0. reflexivity.
  - unfold _normalize_channel_id. rewrite S1, L1, Hdig, H1. reflexivity.
  - intros [| [| k]] Hk; try lia.
    unfold _normalize_channel_id.
    rewrite (strip_nospace _ (repeat_dash_nospace (S (S k)) ds Hd)).
    rewrite (lstrip_dashes (S (S k)) ds Hd), Hdig.
    unfold int_of_str.
    rewrite (strip_nospace _ (repeat_dash_nospace (S (S k)) ds Hd)).
    reflexivity.
Qed.

(** X14. A string of decimal digits is read as that number and a single
    leading minus sign makes it negative, so a numeric identifier may be
    given as a number or as a string.  With two or more leading minus
    signs the digits still pass the numeric test but [int] refuses the
    string: [ValueError] is raised. *)
Theorem numeric_channel_ids ds :
  ds <> [] -> forallb isdigit_char ds = true ->
  (List.length ds <= int_max_str_digits)%nat ->
  _normalize_channel_id (Str ds) = Ret (Int (decimal_value ds)) /\
  _normalize_channel_id (Str (dash :: ds)) = Ret (Int (- decimal_value ds)) /\
  _normalize_channel_id (Int (- decimal_value ds)) =
    Ret (Int (- decimal_value ds)) /\
  forall k, (2 <= k)%nat ->
            _normalize_channel_id (Str (repeat dash k ++ ds)) = Raise ValueError.
Proof. exact (numeric_ids ds). Qed.

(** ** Printing and reading back *)

Lemma str_of_uint_digits u : forallb isdigit_char (str_of_uint u) = true.
Proof. induction u; cbn [str_of_uint forallb]; auto. Qed.

Lemma value_of_uint_acc u : forall acc,
  fold_left (fun a d => (10 * a + Z.of_N d)%Z)
            (map (fun c => c - 48) (str_of_uint u)) (Zpos acc) =
  Zpos (Pos.of_uint_acc u acc).
Proof.
  induction u; intros acc; cbn [str_of_uint map fold_left Pos.of_uint_acc];
    [reflexivity | rewrite <- IHu; f_equal; lia ..].
Qed.

Lemma value_of_uint u :
  decimal_value (str_of_uint u) = Z.of_N (Pos.of_uint u).
Proof.
  unfold decimal_value, digits_value.
  induction u; cbn [str_of_uint map fold_left Pos.of_uint];
    [reflexivity | exact IHu | apply (value_of_uint_acc u) ..].
Qed.

Lemma str_of_pos p :
  str_of_uint (Pos.to_uint p) <> [] /\
  decimal_value (str_of_uint (Pos.to_uint p)) = Zpos p.
Proof.
  pose proof (DecimalPos.Unsigned.of_to p) as H.
  split.
  - intros E. destruct (Pos.to_uint p); try discriminate.
  - now rewrite value_of_uint, H.
Qed.

(** X15. A numeric identifier printed as a string is read back as the
    same number, negative ones included: [str] followed by
    [_normalize_channel_id] is the identity on integers. *)
Theorem printed_id_reads_back n :
  (List.length (str_of_int n) <= int_max_str_digits)%nat ->
  _normalize_channel_id (Str (str_of_int n)) = Ret (Int n) /\
  _normalize_channel_id (Str (str_of_int n)) = _normalize_channel_id (Int n).
Proof.
  intros Hlen.
  assert (H : _normalize_channel_id (Str (str_of_int n)) = Ret (Int n)).
  { destruct n as [| p | p]; [reflexivity | |].
    - destruct (str_of_pos p) as [Hne Hv].
      cbn [str_of_int] in *.
      destruct (numeric_ids _ Hne (str_of_uint_digits _) Hlen)
        as (H & _).
      now rewrite H, Hv.
    - destruct (str_of_pos p) as [Hne Hv].
      cbn [str_of_int List.length] in *.
      assert (Hlen' : (List.length (str_of_uint (Pos.to_uint p))
                       <= int_max_str_digits)%nat) by lia.
      destruct (numeric_ids _ Hne (str_of_uint_digits _) Hlen')
        as (_ & H & _).
      rewrite Hv in H. exact H. }
  split; [exact H | now rewrite H].
Qed.

End NumericFacts.

Module LinkFacts.

Import Py PyMore Eff Monitor MoreSpec CharFacts ChannelFacts NumericFacts.
Local Open Scope N_scope.

(** X16. An identifier over the modelled characters (ASCII, the no-break
    space, the Cyrillic letters and the euro sign, on which the digit
    class is exact) that is not numeric and in which [t.me/] does not
    occur in lower-case letters is returned as it stands, trimmed and
    without a leading at sign.  This includes a link whose host is
    written with capitals: the test for a link ignores case but the
    split does not. *)
Theorem other_identifiers_pass_through s :
  forallb modelled s = true ->
  let channel_str := strip s in
  isdigit (lstrip_char dash channel_str) = false ->
  contains (lit "t.me/") channel_str = false ->
  _normalize_channel_id (Str s) =
  Ret (Str (if startswith (lit "@") channel_str
            then slice_from 1 channel_str else channel_str)).
Proof.
  intros _ channel_str Hnum Habs. unfold _normalize_channel_id.
  fold channel_str. rewrite Hnum.
  unfold split. rewrite (split_from_absent _ _ [] Habs).
  destruct (contains (lit "t.me/") (lower channel_str));
    destruct (startswith (lit "@") channel_str); reflexivity.
Qed.

Lemma str_of_int_nospace n :
  forallb (fun c => negb (isspace c)) (str_of_int n) = true.
Proof.
  destruct n as [| p | p]; [reflexivity | |]; cbn [str_of_int forallb];
    rewrite ?andb_true_l; apply digits_nospace, str_of_uint_digits.
Qed.

(** X17. What the monitor prints for a public channel leads back to the
    channel: the link to one of its messages and its displayed name both
    normalise to its user name. *)
Theorem links_lead_back_to_channel chat u message_id :
  username chat = Some u -> plain_username u = true ->
  _normalize_channel_id (Str (snd (_get_message_link (Some chat) message_id)))
    = Ret (Str u) /\
  _normalize_channel_id (Str (snd (_get_channel_name (Some chat))))
    = Ret (Str u).
Proof.
  intros Hname Hu.
  assert (Ht : truthy (username chat) = true).
  { rewrite Hname. destruct u; [discriminate | reflexivity]. }
  unfold _get_message_link, _get_channel_name. rewrite Ht, Hname.
  cbn [snd text_of]. split.
  - apply url_gives_username; [cbn; auto | exact Hu |].
    change (lit "/" ++ str_of_int message_id) with (47 :: str_of_int message_id).
    cbn [link_tail]. apply andb_true_iff. split; [reflexivity |].
    apply negb_true_iff.
    change (47 :: str_of_int message_id) with ([47] ++ str_of_int message_id).
    apply ends_with_space_nospace. rewrite forallb_app.
    now rewrite str_of_int_nospace.
  - apply (formats_give_username u Hu).
Qed.

End LinkFacts.

(* ================================================================== *)
(** * The age of a message *)
(* ================================================================== *)

Module AgeFacts.

Import Monitor MoreSpec.
Local Open Scope Z_scope.

(** X18. The age filter keeps every message when [max_age_days] is
    absent, zero or negative, and keeps a message without a date.
    Otherwise, as long as no date overflows, a message is too old exactly
    when its instant, a naive date being read as UTC, lies strictly before
    the clock reading less [max_age_days] days: a message dated at the
    cutoff is kept.  A message that is too old stays too old as the clock
    advances. *)
Theorem age_filter_cutoff days now message_id d :
  0 < days <= timedelta_max_days ->
  datetime_min <= now - days * microseconds_per_day ->
  let cutoff := now - days * microseconds_per_day in
  let read := match utcoffset d with
              | Some o => wall d - o
              | None => wall d
              end in
  verdict_of (Some days) now message_id (Some d) = Returns (read <? cutoff) /\
  (read = cutoff ->
   verdict_of (Some days) now message_id (Some d) = Returns false) /\
  (forall later,
     now <= later ->
     verdict_of (Some days) now message_id (Some d) = Returns true ->
     verdict_of (Some days) later message_id (Some d) = Returns true) /\
  (forall any_days any_date,
     any_days <= 0 ->
     verdict_of (Some any_days) now message_id any_date = Returns false /\
     verdict_of None now message_id any_date = Returns false) /\
  verdict_of (Some days) now message_id None = Returns false.
Proof.
  intros [Hpos Hmax] Hmin cutoff read.
  assert (Hform : forall t, datetime_min <= t - days * microseconds_per_day ->
            verdict_of (Some days) t message_id (Some d) =
            Returns (read <? t - days * microseconds_per_day)).
  { intros t Ht. unfold verdict_of, _is_message_too_old.
    replace (days =? 0) with false by (symmetry; apply Z.eqb_neq; lia).
    replace (days <=? 0) with false by (symmetry; apply Z.leb_gt; lia).
    replace (timedelta_max_days <? days) with false
      by (symmetry; apply Z.ltb_ge; lia).
    replace (t - days * microseconds_per_day <? datetime_min) with false
      by (symmetry; apply Z.ltb_ge; lia).
    cbn [orb snd]. unfold instant, replace_tzinfo_utc, read.
    destruct (utcoffset d) as [o |] eqn:E; cbn [utcoffset wall];
      rewrite ?E; [reflexivity | now rewrite Z.sub_0_r]. }
  split; [now apply Hform |]. split; [| split; [| split]].
  - intros E. rewrite (Hform now Hmin). fold cutoff. rewrite E.
    now rewrite Z.ltb_irrefl.
  - intros later Hl. rewrite (Hform now Hmin).
    rewrite Hform by (unfold microseconds_per_day in *; lia).
    intros [= H]. f_equal. apply Z.ltb_lt in H. apply Z.ltb_lt. lia.
  - intros any_days any_date Hle. unfold verdict_of, _is_message_too_old.
    replace (any_days <=? 0) with true by (symmetry; apply Z.leb_le; lia).
    rewrite orb_true_r. split; reflexivity.
  - unfold verdict_of, _is_message_too_old.
    replace (days =? 0) with false by (symmetry; apply Z.eqb_neq; lia).
    replace (days <=? 0) with false by (symmetry; apply Z.leb_gt; lia).
    reflexivity.
Qed.

(** X19. A [max_age_days] of 3652059 or more, the number of days the
    calendar spans, makes the age check raise [OverflowError] on every
    dated message, whatever the clock reads. *)
Theorem huge_max_age_overflows days now message_id d :
  3652059 <= days ->
  datetime_min <= now <= datetime_max ->
  verdict_of (Some days) now message_id (Some d) = OverflowError.
Proof.
  intros Hd [Hlo Hhi]. unfold verdict_of, _is_message_too_old.
  replace (days =? 0) with false by (symmetry; apply Z.eqb_neq; lia).
  replace (days <=? 0) with false by (symmetry; apply Z.leb_gt; lia).
  cbn [orb]. destruct (timedelta_max_days <? days); [reflexivity |].
  replace (now - days * microseconds_per_day <? datetime_min) with true;
    [reflexivity |].
  symmetry. apply Z.ltb_lt.
  unfold microseconds_per_day, datetime_min, datetime_max in *. lia.
Qed.

End AgeFacts.

(* ================================================================== *)
(** * Notifications *)
(* ================================================================== *)

Module NotifierFacts.

Import Py PyMore Re Eff EffFacts Matcher Monitor Notifier Spec MoreSpec.
Import ProductFacts.
Local Open Scope N_scope.



Section WithClient.

Variable format_2f : float -> str.
Variable strftime : datetime -> str.
Variable delivers : channel -> str -> bool.
Variable self : Notifier.



(** X21. A product configured with [notify: false] never causes a
    message to be sent: for every match result it yields,
    [send_notification] does nothing.  For any other result, with the
    Telegram channel enabled or unset, exactly one message is handed to
    the client, addressed to the configured chat or to ['me'], and a
    failure of the client is logged, not raised. *)
Theorem muted_products_send_nothing (re_search : engine)
  (matcher : ProductMatcher) message_text product r
  message_link channel_name message_datetime :
  In r (results_for re_search matcher message_text product) ->
  let sent := send_notification format_2f strftime delivers self r message_text
                message_link channel_name message_datetime in
  (notify product = Some false -> sent = []) /\
  (notify product <> Some false ->
   get (telegram_enabled self) true = true ->
   exists text outcome,
     sent = [Send_message (get (telegram_chat_id self) (Str (lit "me"))) text;
             outcome] /\
     (outcome = Log_notification_sent \/ outcome = Log_failed_to_send)).
Proof.
  intros Hin. cbv zeta.
  assert (Hn : res_notify r = get (notify product) true).
  { rewrite results_for_view in Hin.
    unfold product_view in Hin. cbv zeta in Hin.
    destruct (filter _ (keywords product)); [destruct Hin |].
    destruct (existsb _ (exclude_keywords product)); [destruct Hin |].
    destruct (price_view re_search matcher message_text product)
      as [[pm cur] |]; [| destruct Hin].
    destruct Hin as [<- | []]. reflexivity. }
  unfold send_notification. rewrite Hn. split.
  - intros ->. reflexivity.
  - intros Hnot Hen. rewrite Hen.
    replace (get (notify product) true) with true
      by (destruct (notify product) as [[|] |]; cbn [get]; congruence).
    cbn [negb]. unfold _send_telegram_notification.
    destruct (delivers _ _); eexists; eexists; split; eauto.
Qed.

End WithClient.

End NotifierFacts.

(* ================================================================== *)
(** * The further properties at sample inputs *)
(* ================================================================== *)

Module ExtraWitnesses.

Import Py PyMore Re Eff EffFacts Matcher Monitor Spec MoreSpec Samples MoreSamples.
Local Open Scope N_scope.

Lemma match_message_by_product_witness :
  result (match_message shop_engine (with_products shop ([phone] ++ [phone]))
            priced_message) =
  Ret ([result_with phone [lit "phone"] (Some (Finite 250%Q)) (Some (lit "$"))]
       ++ [result_with phone [lit "phone"] (Some (Finite 250%Q)) (Some (lit "$"))]).
Proof.
  assert (Hne : priced_message <> []) by (vm_compute; discriminate).
  apply (proj1 (CatalogueFacts.match_message_by_product shop_engine shop
                  priced_message [phone] [phone] Hne));
    vm_compute; reflexivity.
Defined.


Lemma product_steps_stop_early_witness :
  result (_match_product shop_engine shop scam_message phone) = Ret None.
Proof.
  apply (proj2 (StepFacts.product_steps_stop_early shop_engine shop
                  scam_message phone)).
  vm_compute. reflexivity.
Defined.

Lemma extraction_survives_failures_witness :
  In (Log DEBUG (Pattern_failed (substituted shop (lit "\$\s*{price}")) re_error))
     (trace (try_pattern refusing_engine shop priced_message dollar_pattern)) /\
  result (extract_loop refusing_engine shop priced_message [dollar_pattern]) =
  result (extract_loop refusing_engine shop priced_message []).
Proof.
  destruct (proj1 (RobustFacts.extraction_survives_failures refusing_engine shop
                     priced_message dollar_pattern 92 (lit "$\s*{price}") eq_refl)
                  re_error) as [Hlog Hskip].
  - right; right; left; reflexivity.
  - reflexivity.
  - split; [exact Hlog | exact (Hskip [])].
Defined.

Lemma literal_mode_needs_no_engine_witness :
  searched (trace (match_message refusing_engine literal_shop
                     (lit "a phone, no price"))) = [].
Proof.
  apply (RobustFacts.literal_mode_needs_no_engine literal_shop
           (lit "a phone, no price") eq_refl eq_refl).
  repeat constructor.
Defined.

Lemma empty_keyword_matches_everything_witness :
  result (_match_keyword refusing_engine literal_shop (lit "anything") [])
  = Ret true.
Proof.
  apply (RobustFacts.empty_keyword_matches_everything refusing_engine
           literal_shop eq_refl eq_refl).
Defined.

Lemma lookalikes_do_not_hide_keywords_witness :
  _match_product refusing_engine literal_shop disguised_iphone plain_phone =
  _match_product refusing_engine literal_shop (lit "iPhone") plain_phone.
Proof.
  apply (DisguiseFacts.lookalikes_do_not_hide_keywords refusing_engine
           literal_shop (lit "iPhone") disguised_iphone plain_phone);
    try reflexivity.
  repeat (apply Forall2_cons;
          [unfold stands_for, CYRILLIC_TO_LATIN; cbn [In];
           repeat first [left; reflexivity | right] |]).
  apply Forall2_nil.
Defined.

Lemma whole_word_match_is_substring_witness :
  contains (fold_case whole_word_shop (_normalize_text (lit "Phone")))
           (lit "a phone here") = true.
Proof.
  apply (DisguiseFacts.whole_word_match_is_substring refusing_engine
           whole_word_shop (lit "a phone here") (lit "Phone") eq_refl eq_refl).
  vm_compute. reflexivity.
Defined.

Lemma channel_formats_agree_witness :
  _normalize_channel_id (Str (lit "https://t.me/channelname")) =
  Ret (Str (lit "channelname")).
Proof.
  apply (ChannelFacts.channel_formats_agree (lit "channelname")).
  reflexivity.
Defined.

Lemma link_path_and_query_are_dropped_witness :
  _normalize_channel_id (Str (lit "t.me/channelname/123?single")) =
  Ret (Str (lit "channelname")).
Proof.
  apply (ChannelFacts.link_path_and_query_are_dropped (lit "t.me/")
           (lit "channelname") (lit "/123?single"));
    [cbn; auto | reflexivity | reflexivity].
Defined.

Lemma numeric_channel_ids_witness :
  _normalize_channel_id (Str (lit "-1001234567890")) =
  Ret (Int (-1001234567890)).
Proof.
  apply (NumericFacts.numeric_channel_ids (lit "1001234567890"));
    [discriminate | reflexivity | vm_compute; lia].
Defined.

Lemma printed_id_reads_back_witness :
  _normalize_channel_id (Str (str_of_int (-1001234567890))) =
  Ret (Int (-1001234567890)).
Proof.
  apply (NumericFacts.printed_id_reads_back (-1001234567890)).
  vm_compute. lia.
Defined.

Lemma other_identifiers_pass_through_witness :
  _normalize_channel_id (Str (lit "HTTPS://T.ME/Channel")) =
  Ret (Str (lit "HTTPS://T.ME/Channel")).
Proof.
  apply (LinkFacts.other_identifiers_pass_through (lit "HTTPS://T.ME/Channel"));
    reflexivity.
Defined.

Lemma links_lead_back_to_channel_witness :
  _normalize_channel_id (Str (snd (_get_message_link (Some durov) 42))) =
  Ret (Str (lit "durov")).
Proof.
  apply (LinkFacts.links_lead_back_to_channel durov (lit "durov") 42);
    reflexivity.
Defined.

Lemma age_filter_cutoff_witness :
  verdict_of (Some 7%Z) (1704110400000000 + 7 * microseconds_per_day)%Z 1
             (Some new_year_noon) = Returns false.
Proof.
  apply (AgeFacts.age_filter_cutoff 7
           (1704110400000000 + 7 * microseconds_per_day) 1 new_year_noon);
    vm_compute; try split; congruence.
Defined.

Lemma huge_max_age_overflows_witness :
  verdict_of (Some 4000000%Z) 1704110400000000%Z 1 (Some new_year_noon)
  = OverflowError.
Proof.
  apply (AgeFacts.huge_max_age_overflows 4000000 1704110400000000 1 new_year_noon);
    vm_compute; try split; congruence.
Defined.

Lemma muted_products_send_nothing_witness :
  Notifier.send_notification sample_format_2f sample_strftime always_delivers
    default_notifier (result_with plain_phone [lit "phone"; []] None None)
    (lit "a phone") None None None = [].
Proof.
  apply (NotifierFacts.muted_products_send_nothing sample_format_2f
           sample_strftime always_delivers default_notifier refusing_engine
           literal_shop (lit "a phone") plain_phone
           (result_with plain_phone [lit "phone"; []] None None) None None None).
  - vm_compute. auto.
  - reflexivity.
Defined.


Lemma searches_of_a_product_witness :
  Forall (keyword_call (fold_case literal_shop (_normalize_text (lit "a phone"))))
         (trace (_match_product refusing_engine literal_shop (lit "a phone")
                   plain_phone)).
Proof.
  apply (proj2 (CallFacts.searches_of_a_product refusing_engine literal_shop
                  (lit "a phone") plain_phone)).
  reflexivity.
Defined.

Lemma normalize_touches_lookalikes_only_witness :
  Forall2 normalized_as disguised_iphone (_normalize_text disguised_iphone).
Proof.
  apply (DisguiseFacts.normalize_touches_lookalikes_only disguised_iphone).
Defined.

Lemma parser_is_symmetric_in_separators_witness :
  result (_parse_price_string (Some (swap_separators (lit "1.234,56")))) =
  result (_parse_price_string (Some (lit "1.234,56"))).
Proof.
  apply (SymmetryFacts.parser_is_symmetric_in_separators (lit "1.234,56")).
Defined.

End ExtraWitnesses.
